(** * dotenv: a shallow embedding of [pkg/dotenv] and its layered loader

    The development follows the Go package function by function.  Go byte
    slices and Go strings are both byte sequences and are modelled by
    [string] (a list of 8-bit [ascii] characters); runes are code points in
    [N]; Go maps are [gmap string string].  The pieces of the Go standard
    library the package calls ([unicode/utf8], [unicode], [bytes]/[strings],
    [regexp] for the three fixed patterns, [os]) are modelled in modules
    named after the Go packages. *)

From Stdlib Require Import NArith ZArith Ascii String List Bool Lia.
From stdpp Require Import gmap strings list fin_maps.

Local Open Scope string_scope.

(** ** Byte slices *)

(** [s[n:]] *)
Fixpoint slice_from (s : string) (n : nat) {struct n} : string :=
  match n, s with
  | O, _ => s
  | S k, String _ t => slice_from t k
  | S _, EmptyString => EmptyString
  end.

(** [s[:n]] *)
Fixpoint slice_to (s : string) (n : nat) {struct n} : string :=
  match n, s with
  | O, _ => EmptyString
  | S k, String c t => String c (slice_to t k)
  | S _, EmptyString => EmptyString
  end.

(** [s[i]] as a number; 0 when out of range (the callers below only index
    inside the slice). *)
Definition byte_at (s : string) (i : nat) : N :=
  match String.get i s with
  | Some c => N_of_ascii c
  | None => 0%N
  end.

(** Whether the byte [c] occurs in [s]. *)
Definition hasByte (c : ascii) (s : string) : bool :=
  existsb (Ascii.eqb c) (list_ascii_of_string s).

Definition chr (n : N) : ascii := ascii_of_N n.
Definition str1 (c : ascii) : string := String c EmptyString.

(** A few bytes that cannot be written inside a string literal. *)
Definition LF : ascii := chr 10.
Definition CR : ascii := chr 13.
Definition BACKSLASH : ascii := chr 92.

(** ** [unicode/utf8] *)
Module utf8.

Definition RuneError : N := 0xFFFD.
Definition RuneSelf : N := 0x80.
Definition UTFMax : nat := 4.

Definition locb : N := 0x80.
Definition hicb : N := 0xBF.
Definition maskx : N := 0x3F.
Definition mask2 : N := 0x1F.
Definition mask3 : N := 0x0F.
Definition mask4 : N := 0x07.

(** The [first] table: information about the first byte of an encoding. *)
Definition xx : N := 0xF1.
Definition as_ : N := 0xF0.
Definition s1 : N := 0x02.
Definition s2 : N := 0x13.
Definition s3 : N := 0x03.
Definition s4 : N := 0x23.
Definition s5 : N := 0x34.
Definition s6 : N := 0x04.
Definition s7 : N := 0x44.

Definition first (p0 : N) : N :=
  if (p0 <? 0x80)%N then as_
  else if (p0 <? 0xC2)%N then xx
  else if (p0 <? 0xE0)%N then s1
  else if (p0 =? 0xE0)%N then s2
  else if (p0 <? 0xED)%N then s3
  else if (p0 =? 0xED)%N then s4
  else if (p0 <? 0xF0)%N then s3
  else if (p0 =? 0xF0)%N then s5
  else if (p0 <? 0xF4)%N then s6
  else if (p0 =? 0xF4)%N then s7
  else xx.

(** [acceptRanges]: the range allowed for the second byte. *)
Definition acceptRanges (i : N) : N * N :=
  if (i =? 0)%N then (locb, hicb)
  else if (i =? 1)%N then (0xA0, hicb)%N
  else if (i =? 2)%N then (locb, 0x9F)%N
  else if (i =? 3)%N then (0x90, hicb)%N
  else if (i =? 4)%N then (locb, 0x8F)%N
  else (0, 0)%N.

(** [utf8.DecodeRune]: the first rune of [p] and its width in bytes. *)
Definition DecodeRune (p : string) : N * nat :=
  let n := String.length p in
  if (n <? 1)%nat then (RuneError, 0%nat)
  else
    let p0 := byte_at p 0 in
    let x := first p0 in
    if (as_ <=? x)%N then
      ((if N.testbit x 0 then RuneError else p0), 1%nat)
    else
      let sz := N.to_nat (N.land x 7) in
      let accept := acceptRanges (N.shiftr x 4) in
      if (n <? sz)%nat then (RuneError, 1%nat)
      else
        let b1 := byte_at p 1 in
        if ((b1 <? fst accept) || (snd accept <? b1))%N then (RuneError, 1%nat)
        else if (sz <=? 2)%nat then
          (N.lor (N.shiftl (N.land p0 mask2) 6) (N.land b1 maskx), 2%nat)
        else
          let b2 := byte_at p 2 in
          if ((b2 <? locb) || (hicb <? b2))%N then (RuneError, 1%nat)
          else if (sz <=? 3)%nat then
            (N.lor (N.lor (N.shiftl (N.land p0 mask3) 12)
                          (N.shiftl (N.land b1 maskx) 6))
                   (N.land b2 maskx), 3%nat)
          else
            let b3 := byte_at p 3 in
            if ((b3 <? locb) || (hicb <? b3))%N then (RuneError, 1%nat)
            else
              (N.lor (N.lor (N.lor (N.shiftl (N.land p0 mask4) 18)
                                   (N.shiftl (N.land b1 maskx) 12))
                            (N.shiftl (N.land b2 maskx) 6))
                     (N.land b3 maskx), 4%nat).

(** [utf8.RuneStart] *)
Definition RuneStart (b : N) : bool := negb (N.land b 0xC0 =? 0x80)%N.

(** The backward search of [DecodeLastRune]:
    [for start--; start >= lim; start-- { if RuneStart(p[start]) { break } }],
    entered after the first decrement. *)
Fixpoint lastStart (fuel : nat) (p : string) (lim start : Z) : Z :=
  match fuel with
  | O => start
  | S k =>
      if (start >=? lim)%Z then
        if RuneStart (byte_at p (Z.to_nat start)) then start
        else lastStart k p lim (start - 1)%Z
      else start
  end.

(** [utf8.DecodeLastRune]: the last rune of [p] and its width. *)
Definition DecodeLastRune (p : string) : N * nat :=
  let end_ := String.length p in
  if (end_ =? 0)%nat then (RuneError, 0%nat)
  else
    let r := byte_at p (end_ - 1) in
    if (r <? RuneSelf)%N then (r, 1%nat)
    else
      let lim := Z.max 0 (Z.of_nat end_ - Z.of_nat UTFMax) in
      let start := lastStart UTFMax p lim (Z.of_nat end_ - 2) in
      let start := Z.to_nat (Z.max 0 start) in
      let '(r, size) := DecodeRune (slice_to (slice_from p start) (end_ - start)) in
      if negb (start + size =? end_)%nat then (RuneError, 1%nat)
      else (r, size).

Definition surrogateMin : N := 0xD800.
Definition surrogateMax : N := 0xDFFF.
Definition MaxRune : N := 0x10FFFF.

Definition b (n : N) : string := str1 (chr n).

(** [utf8.AppendRune] on an empty buffer: the encoding of one rune, as
    done by the conversion [string(runes)]. *)
Definition EncodeRune (r : N) : string :=
  if (r <=? 0x7F)%N then b r
  else if (r <=? 0x7FF)%N then
    b (N.lor 0xC0 (N.shiftr r 6)) +:+ b (N.lor 0x80 (N.land r maskx))
  else if ((MaxRune <? r) || ((surrogateMin <=? r) && (r <=? surrogateMax)))%N then
    b 0xEF +:+ b 0xBF +:+ b 0xBD
  else if (r <=? 0xFFFF)%N then
    b (N.lor 0xE0 (N.shiftr r 12))
      +:+ b (N.lor 0x80 (N.land (N.shiftr r 6) maskx))
      +:+ b (N.lor 0x80 (N.land r maskx))
  else
    b (N.lor 0xF0 (N.shiftr r 18))
      +:+ b (N.lor 0x80 (N.land (N.shiftr r 12) maskx))
      +:+ b (N.lor 0x80 (N.land (N.shiftr r 6) maskx))
      +:+ b (N.lor 0x80 (N.land r maskx)).

(** The conversion [[]rune(s)]: decode rune by rune, an invalid byte
    giving [RuneError].  [skip] counts the bytes of the current rune that
    are still to be passed over. *)
Fixpoint runes_from (skip : nat) (s : string) : list N :=
  match s with
  | EmptyString => []
  | String _ t =>
      match skip with
      | S k => runes_from k t
      | O => let '(r, wid) := DecodeRune s in r :: runes_from (wid - 1) t
      end
  end.
Definition runes (s : string) : list N := runes_from 0 s.

(** The conversion [string(rs)]. *)
Fixpoint encode (rs : list N) : string :=
  match rs with
  | [] => EmptyString
  | r :: t => EncodeRune r +:+ encode t
  end.

End utf8.

(** ** [unicode] *)
Module unicode.

Definition MaxLatin1 : N := 0xFF.

(** [unicode.IsSpace]: the Latin-1 switch, and the [White_Space] range
    table above Latin-1. *)
Definition IsSpace (r : N) : bool :=
  if (r <=? MaxLatin1)%N then
    ((r =? 0x09) || (r =? 0x0A) || (r =? 0x0B) || (r =? 0x0C) || (r =? 0x0D)
     || (r =? 0x20) || (r =? 0x85) || (r =? 0xA0))%N
  else
    ((r =? 0x1680) || ((0x2000 <=? r) && (r <=? 0x200A))
     || (r =? 0x2028) || (r =? 0x2029) || (r =? 0x202F) || (r =? 0x205F)
     || (r =? 0x3000))%N.

(** [unicode.IsLetter] on the Latin-1 range ([properties[r] & pLmask]).
    The package only calls it on [rune(char)] for a byte [char]; the
    tables above Latin-1 are not modelled. *)
Definition IsLetter (r : N) : bool :=
  (((0x41 <=? r) && (r <=? 0x5A)) || ((0x61 <=? r) && (r <=? 0x7A))
   || (r =? 0xAA) || (r =? 0xB5) || (r =? 0xBA)
   || ((0xC0 <=? r) && (r <=? 0xD6)) || ((0xD8 <=? r) && (r <=? 0xF6))
   || ((0xF8 <=? r) && (r <=? 0xFF)))%N.

(** [unicode.IsNumber] on the Latin-1 range ([properties[r] & pN]). *)
Definition IsNumber (r : N) : bool :=
  (((0x30 <=? r) && (r <=? 0x39))
   || (r =? 0xB2) || (r =? 0xB3) || (r =? 0xB9)
   || ((0xBC <=? r) && (r <=? 0xBE)))%N.

End unicode.

(** ** [bytes] and [strings]

    The two packages have the same functions on the two byte-sequence
    types; one model serves both.  An index result is an [option nat],
    [None] standing for Go's [-1]. *)
Module bytes.

(** [indexFunc(s, f, truth)]: the byte index of the first rune [r] with
    [f r = truth].  The Go loop advances by the width of each rune;
    [skip] counts the bytes of the current rune still to be passed and
    [start] is the index of the head of [s] in the original slice. *)
Fixpoint indexFunc_from (f : N -> bool) (truth : bool)
    (skip start : nat) (s : string) : option nat :=
  match s with
  | EmptyString => None
  | String c t =>
      match skip with
      | S k => indexFunc_from f truth k (S start) t
      | O =>
          let '(r, wid) :=
            if (N_of_ascii c <? utf8.RuneSelf)%N then (N_of_ascii c, 1%nat)
            else utf8.DecodeRune s in
          if Bool.eqb (f r) truth then Some start
          else indexFunc_from f truth (wid - 1) (S start) t
      end
  end.

Definition indexFunc (s : string) (f : N -> bool) (truth : bool) : option nat :=
  indexFunc_from f truth 0 0 s.

Definition IndexFunc (s : string) (f : N -> bool) : option nat :=
  indexFunc s f true.

(** [lastIndexFunc(s, f, truth)]: the loop runs [i] down from [len(s)]. *)
Fixpoint lastIndexFunc_loop (fuel : nat) (s : string) (f : N -> bool)
    (truth : bool) (i : nat) : option nat :=
  match fuel with
  | O => None
  | S k =>
      if (0 <? i)%nat then
        let '(r, size) :=
          if (byte_at s (i - 1) <? utf8.RuneSelf)%N then (byte_at s (i - 1), 1%nat)
          else utf8.DecodeLastRune (slice_to s i) in
        let i := (i - size)%nat in
        if Bool.eqb (f r) truth then Some i
        else lastIndexFunc_loop k s f truth i
      else None
  end.

Definition lastIndexFunc (s : string) (f : N -> bool) (truth : bool) : option nat :=
  lastIndexFunc_loop (String.length s) s f truth (String.length s).

(** [TrimLeftFunc]; the [nil] result of Go is the empty slice. *)
Definition TrimLeftFunc (s : string) (f : N -> bool) : string :=
  match indexFunc s f false with
  | None => EmptyString
  | Some i => slice_from s i
  end.

Definition TrimRightFunc (s : string) (f : N -> bool) : string :=
  match lastIndexFunc s f false with
  | Some i =>
      if (utf8.RuneSelf <=? byte_at s i)%N then
        slice_to s (i + snd (utf8.DecodeRune (slice_from s i)))
      else slice_to s (i + 1)
  | None => slice_to s 0
  end.

Definition TrimFunc (s : string) (f : N -> bool) : string :=
  TrimRightFunc (TrimLeftFunc s f) f.

Definition HasPrefix (s pre : string) : bool := String.prefix pre s.

Definition TrimPrefix (s pre : string) : string :=
  if HasPrefix s pre then slice_from s (String.length pre) else s.

(** [Replace(s, old, new, -1)] for a non-empty [old]: every
    non-overlapping occurrence, left to right.  [skip] counts the bytes
    of the occurrence just replaced that are still to be dropped. *)
Fixpoint replace_from (old new : string) (skip : nat) (s : string) : string :=
  match s with
  | EmptyString => EmptyString
  | String c t =>
      match skip with
      | S k => replace_from old new k t
      | O =>
          if String.prefix old s
          then new +:+ replace_from old new (String.length old - 1) t
          else String c (replace_from old new 0 t)
      end
  end.

Definition ReplaceAll (s old new : string) : string := replace_from old new 0 s.

End bytes.

(** ** [slices] *)
Module slices.
Definition Contains {A} `{EqDecision A} (s : list A) (v : A) : bool :=
  bool_decide (v ∈ s).
End slices.

(** ** [regexp]

    A compiled pattern is modelled by its anchored matcher: given the input
    from some position on, the submatches of the leftmost-first match that
    starts at that position ([whole :: groups], an unmatched group being
    the empty string as in [FindStringSubmatch]), if there is one.  None of
    the three patterns of the package matches the empty string or looks at
    the text before the match. *)
Module regexp.

Definition pattern := string -> option (list string).

(** [inputString.step]: the rune at the head of the input and its width. *)
Definition step (s : string) : N * nat :=
  if (byte_at s 0 <? utf8.RuneSelf)%N then (byte_at s 0, 1%nat)
  else utf8.DecodeRune s.

Definition whole (sub : list string) : string := hd EmptyString sub.
Definition group (i : nat) (sub : list string) : string := nth i sub EmptyString.

(** The replacement loop of [Regexp.replaceAll]: copy the text before the
    next match, append the replacement, continue after the match; where
    there is no match at the current rune, copy the rune.  [copy] and
    [drop] count the bytes of the current rune, respectively of the
    current match, that are still to be passed. *)
Fixpoint replaceAll_from (re : pattern) (repl : list string -> string)
    (copy drop : nat) (src : string) : string :=
  match src with
  | EmptyString => EmptyString
  | String c t =>
      match drop with
      | S d => replaceAll_from re repl 0 d t
      | O =>
          match copy with
          | S k => String c (replaceAll_from re repl k 0 t)
          | O =>
              match re src with
              | Some sub =>
                  repl sub +:+
                  replaceAll_from re repl 0 (String.length (whole sub) - 1) t
              | None =>
                  String c (replaceAll_from re repl (snd (step src) - 1) 0 t)
              end
          end
      end
  end.

(** [re.ReplaceAllStringFunc(src, repl)] *)
Definition ReplaceAllStringFunc (re : pattern) (src : string)
    (repl : string -> string) : string :=
  replaceAll_from re (fun sub => repl (whole sub)) 0 0 src.

(** [re.ReplaceAllString(src, "$1")]: the template is the first group. *)
Definition ReplaceAllString_group1 (re : pattern) (src : string) : string :=
  replaceAll_from re (group 1) 0 0 src.

(** [re.FindStringSubmatch(s)]: the submatches of the leftmost match. *)
Fixpoint find_from (re : pattern) (skip : nat) (s : string) : option (list string) :=
  match s with
  | EmptyString => None
  | String _ t =>
      match skip with
      | S k => find_from re k t
      | O =>
          match re s with
          | Some sub => Some sub
          | None => find_from re (snd (step s) - 1) t
          end
      end
  end.
Definition FindStringSubmatch (re : pattern) (s : string) : option (list string) :=
  find_from re 0 s.

(** An optional literal byte, greedy: [c?]. *)
Definition opt_char (c : ascii) (s : string) : string * string :=
  match s with
  | String d t => if Ascii.eqb d c then (str1 c, t) else (EmptyString, s)
  | EmptyString => (EmptyString, s)
  end.

(** The longest prefix of bytes satisfying [p]: a greedy [[...]*]. *)
Fixpoint span (p : ascii -> bool) (s : string) : string * string :=
  match s with
  | String d t =>
      if p d then let '(a, r) := span p t in (String d a, r)
      else (EmptyString, s)
  | EmptyString => (EmptyString, s)
  end.

End regexp.

(** ** The package [dotenv] *)

Definition charComment : ascii := "#".
Definition prefixSingleQuote : ascii := "'".
Definition prefixDoubleQuote : ascii := chr 34.
Definition exportPrefix : string := "export".

Definition EnvKey : string := "APP_ENV".
Definition DefaultEnv : string := "dev".

(** [escapeRegex]: a backslash and any rune but a newline. *)
Definition escapeRegex : regexp.pattern := fun s =>
  match s with
  | String c (String _ _ as t) =>
      if Ascii.eqb c BACKSLASH then
        let '(r, wid) := regexp.step t in
        if (r =? 10)%N then None else Some [slice_to s (1 + wid)]
      else None
  | _ => None
  end.

(** [unescapeCharsRegex]: a backslash and, captured, any rune but a dollar
    sign (a negated class matches the newline too). *)
Definition unescapeCharsRegex : regexp.pattern := fun s =>
  match s with
  | String c (String _ _ as t) =>
      if Ascii.eqb c BACKSLASH then
        let '(r, wid) := regexp.step t in
        if (r =? 36)%N then None else Some [slice_to s (1 + wid); slice_to t wid]
      else None
  | _ => None
  end.

(** The class [[A-Z0-9_]]. *)
Definition isVarNameChar (c : ascii) : bool :=
  let n := N_of_ascii c in
  (((65 <=? n) && (n <=? 90)) || ((48 <=? n) && (n <=? 57)) || (n =? 95))%N.

(** [expandVarRegex]: an optional backslash, the dollar sign, an optional
    opening parenthesis, an optional opening brace, an optional name, an
    optional closing brace; every optional item is greedy and whatever
    follows it can match the empty string, so the first choice stands.
    Were the backslash taken and not followed by a dollar sign, the
    alternative without it would need the dollar sign in the place of the
    backslash: there is no match. *)
Definition expandVarRegex : regexp.pattern := fun s =>
  let '(g1, r1) := regexp.opt_char BACKSLASH s in
  match r1 with
  | String d r2 =>
      if Ascii.eqb d "$" then
        let '(g3, r3) := regexp.opt_char "(" r2 in
        let '(_, r4) := regexp.opt_char "{" r3 in
        let '(g4, r5) := regexp.span isVarNameChar r4 in
        let '(_, r6) := regexp.opt_char "}" r5 in
        Some [slice_to s (String.length s - String.length r6); g1; "$"; g3; g4]
      else None
  | EmptyString => None
  end.

Definition isSpace (r : N) : bool :=
  slices.Contains [9; 11; 12; 13; 32; 0x85; 0xA0]%N r.

Definition isCharFunc (char : N) : N -> bool := fun v => (v =? char)%N.

Definition isLineEnd (r : N) : bool := slices.Contains [10; 13]%N r.

Definition hasQuotePrefix (src : string) : ascii * bool :=
  match src with
  | String c _ =>
      if slices.Contains [prefixDoubleQuote; prefixSingleQuote] c
      then (c, true) else (zero, false)
  | EmptyString => (zero, false)
  end.

Definition indexOfNonSpaceChar (src : string) : option nat :=
  bytes.IndexFunc src (fun r => negb (unicode.IsSpace r)).

(** [getStatementStart] calls itself on the rest of the input after a
    comment; [fuel] bounds the number of calls. *)
Fixpoint getStatementStart_fuel (fuel : nat) (src : string) : option string :=
  match fuel with
  | O => None
  | S k =>
      match indexOfNonSpaceChar src with
      | None => None
      | Some pos =>
          let src := slice_from src pos in
          if negb (byte_at src 0 =? N_of_ascii charComment)%N then Some src
          else
            match bytes.IndexFunc src (isCharFunc 10) with
            | None => None
            | Some pos => getStatementStart_fuel k (slice_from src pos)
            end
      end
  end.

Definition getStatementStart (src : string) : option string :=
  getStatementStart_fuel (S (String.length src)) src.

(** Errors of the package and of the file system. *)
Inductive error : Type :=
  | ErrUnexpectedChar (char : ascii) (near : string)
      (** [unexpected character %q in variable name near %q] *)
  | ErrZeroLength
      (** [zero length string] *)
  | ErrUnterminated (text : string)
      (** [unterminated quoted value %s] *)
  | ErrIO (msg : string)
      (** an error of [os.Open] or [io.Copy] other than not-found *).

Inductive result (A : Type) : Type :=
  | Ok (a : A)
  | Err (e : error).
Arguments Ok {A} a.
Arguments Err {A} e.

(** The outcome of the key loop of [locateKeyName]: it breaks at a
    separator, runs to the end of the input, or returns an error. *)
Inductive keyScan : Type :=
  | KeyEnd (i : nat)
  | KeyNone
  | KeyBad (char : ascii).

(** [for i, char := range src { ... }], [s] being [src[i:]]. *)
Fixpoint keyLoop (i : nat) (s : string) : keyScan :=
  match s with
  | EmptyString => KeyNone
  | String char t =>
      let rchar := N_of_ascii char in
      if isSpace rchar then keyLoop (S i) t
      else if Ascii.eqb char "=" || Ascii.eqb char ":" then KeyEnd i
      else if Ascii.eqb char "_" then keyLoop (S i) t
      else if unicode.IsLetter rchar || unicode.IsNumber rchar || (rchar =? 46)%N
           then keyLoop (S i) t
      else KeyBad char
  end.

Definition locateKeyName (src : string) : result (string * string) :=
  let src := bytes.TrimLeftFunc src isSpace in
  let src :=
    if bytes.HasPrefix src exportPrefix then
      let trimmed := bytes.TrimPrefix src exportPrefix in
      if bool_decide (bytes.IndexFunc trimmed isSpace = Some 0%nat)
      then bytes.TrimLeftFunc trimmed isSpace
      else src
    else src in
  match keyLoop 0 src with
  | KeyBad char => Err (ErrUnexpectedChar char src)
  | scan =>
      let '(key, offset) :=
        match scan with
        | KeyEnd i => (slice_to src i, S i)
        | _ => (EmptyString, 0%nat)
        end in
      if (String.length src =? 0)%nat then Err ErrZeroLength
      else
        Ok (bytes.TrimRightFunc key unicode.IsSpace,
            bytes.TrimLeftFunc (slice_from src offset) isSpace)
  end.

Definition expandEscapes (str : string) : string :=
  let out := regexp.ReplaceAllStringFunc escapeRegex str (fun match_ =>
    let c := bytes.TrimPrefix match_ (str1 BACKSLASH) in
    if String.eqb c "n" then str1 LF
    else if String.eqb c "r" then str1 CR
    else match_) in
  regexp.ReplaceAllString_group1 unescapeCharsRegex out.

(** A Go map read: the zero value for a missing key. *)
Definition mapGet (m : gmap string string) (k : string) : string :=
  default EmptyString (m !! k).

Definition expandVariables (v : string) (m : gmap string string) : string :=
  regexp.ReplaceAllStringFunc expandVarRegex v (fun s =>
    match regexp.FindStringSubmatch expandVarRegex s with
    | None => s
    | Some submatch =>
        if String.eqb (regexp.group 1 submatch) (str1 BACKSLASH)
           || String.eqb (regexp.group 2 submatch) "("
        then slice_from (regexp.group 0 submatch) 1
        else if negb (String.eqb (regexp.group 4 submatch) EmptyString)
        then mapGet m (regexp.group 4 submatch)
        else s
    end).

(** The backward search for an inline comment in [extractVarValue]:
    [for i := endOfVar - 1; i >= 0; i-- { ... }], with [k = i + 1]. *)
Fixpoint commentLoop (line : list N) (k endOfVar : nat) : nat :=
  match k with
  | O => endOfVar
  | S i =>
      if (nth i line 0 =? N_of_ascii charComment)%N && (0 <? i)%nat
         && isSpace (nth (i - 1) line 0%N)
      then i
      else commentLoop line i endOfVar
  end.

(** The search for the closing quote in [extractVarValue]:
    [for i := 1; i < len(src); i++ { ... }], [s] being [src[i:]] and [prev]
    being [src[i-1]]. *)
Fixpoint quoteLoop (quote prev : ascii) (i : nat) (s : string) : option nat :=
  match s with
  | EmptyString => None
  | String char t =>
      if negb (Ascii.eqb char quote) then quoteLoop quote char (S i) t
      else if Ascii.eqb prev BACKSLASH then quoteLoop quote char (S i) t
      else Some i
  end.

Definition extractVarValue (src : string) (vars : gmap string string)
    : result (string * string) :=
  let '(quote, hasPrefix) := hasQuotePrefix src in
  if negb hasPrefix then
    let found := bytes.IndexFunc src isLineEnd in
    if bool_decide (found = None) && (String.length src =? 0)%nat
    then Ok (EmptyString, EmptyString)
    else
      let endOfLine := default (String.length src) found in
      let line := utf8.runes (slice_to src endOfLine) in
      let endOfVar := length line in
      if (endOfVar =? 0)%nat then Ok (EmptyString, slice_from src endOfLine)
      else
        let endOfVar := commentLoop line endOfVar endOfVar in
        let trimmed := bytes.TrimFunc (utf8.encode (take endOfVar line)) isSpace in
        Ok (expandVariables trimmed vars, slice_from src endOfLine)
  else
    match src with
    | String c0 t =>
        match quoteLoop quote c0 1 t with
        | Some i =>
            let trimFunc := isCharFunc (N_of_ascii quote) in
            let value :=
              bytes.TrimLeftFunc (bytes.TrimRightFunc (slice_to src i) trimFunc) trimFunc in
            let value :=
              if Ascii.eqb quote prefixDoubleQuote
              then expandVariables (expandEscapes value) vars
              else value in
            Ok (value, slice_from src (i + 1))
        | None =>
            let valEndIndex :=
              default (String.length src) (bytes.IndexFunc src (isCharFunc 10)) in
            Err (ErrUnterminated (slice_to src valEndIndex))
        end
    | EmptyString => Ok (EmptyString, EmptyString)
    end.

(** The statement loop of [readFile]; every round consumes input, and
    [fuel] bounds the number of rounds. *)
Fixpoint parseLoop (fuel : nat) (cutset : string) (out : gmap string string)
    : gmap string string * option error :=
  match fuel with
  | O => (out, None)
  | S k =>
      match getStatementStart cutset with
      | None => (out, None)
      | Some cutset =>
          match locateKeyName cutset with
          | Err e => (out, Some e)
          | Ok (key, rest) =>
              match extractVarValue rest out with
              | Err e => (out, Some e)
              | Ok (value, rest) => parseLoop k rest (<[key := value]> out)
              end
          end
      end
  end.

(** The part of [readFile] after the file is read into [buf]. *)
Definition parse (buf : string) : gmap string string * option error :=
  let src := bytes.ReplaceAll buf (str1 CR +:+ str1 LF) (str1 LF) in
  parseLoop (S (String.length src)) src ∅.

(** ** [os]: the process environment and the file system

    The environment is a finite map from names to values.  The file system
    is read only: what opening and reading each path gives. *)
Module os.

(** [os.Getenv] *)
Definition Getenv (e : gmap string string) (key : string) : string :=
  if (String.length key =? 0)%nat then EmptyString
  else default EmptyString (e !! key).

(** [os.Setenv]: [EINVAL], here [None], for an empty name, a name with
    [=] or a NUL byte, or a value with a NUL byte. *)
Definition Setenv (e : gmap string string) (key value : string)
    : option (gmap string string) :=
  if (String.length key =? 0)%nat then None
  else if hasByte "=" key || hasByte zero key then None
  else if hasByte zero value then None
  else Some (<[key := value]> e).

(** [os.Environ]: the entries [name=value], in no particular order. *)
Definition Environ (e : gmap string string) : list string :=
  (fun kv => fst kv +:+ "=" +:+ snd kv) <$> map_to_list e.

Inductive file : Type :=
  | NotExist
  | OpenFails (msg : string)
  | ReadFails (msg : string)
  | Contents (buf : string).

Definition fileSystem := string -> file.

End os.

Module strings.
(** [strings.Split(s, sep)[0]] for a one-byte separator: the text before
    its first occurrence, all of [s] when there is none. *)
Fixpoint SplitHead (s : string) (sep : ascii) : string :=
  match s with
  | EmptyString => EmptyString
  | String c t => if Ascii.eqb c sep then EmptyString else String c (SplitHead t sep)
  end.
End strings.

(** The state [LoadEnv] works on: the process environment, and the paths
    handed to [os.Open] so far, oldest first. *)
Record World : Type := mkWorld {
  environ : gmap string string;
  opened : list string
}.

Definition M (A : Type) : Type := World -> A * World.

#[export] Instance M_ret : MRet M := fun A a w => (a, w).
#[export] Instance M_bind : MBind M := fun A B f m w =>
  let '(a, w') := m w in f a w'.

Definition os_Getenv (key : string) : M string := fun w =>
  (os.Getenv (environ w) key, w).

(** [_ = os.Setenv(key, value)]: the error is dropped. *)
Definition os_Setenv_ (key value : string) : M unit := fun w =>
  (tt, mkWorld (default (environ w) (os.Setenv (environ w) key value)) (opened w)).

Definition os_Environ : M (list string) := fun w => (os.Environ (environ w), w).

Definition os_Open (fs : os.fileSystem) (filename : string) : M os.file := fun w =>
  (fs filename, mkWorld (environ w) (opened w ++ [filename])).

Definition appEnv : M string :=
  env ← os_Getenv EnvKey;
  if String.eqb env EmptyString then
    _ ← os_Setenv_ EnvKey DefaultEnv; mret DefaultEnv
  else mret env.

Definition readFile (fs : os.fileSystem) (filename : string)
    : M (gmap string string * option error) :=
  f ← os_Open fs filename;
  match f with
  | os.OpenFails msg => mret (∅, Some (ErrIO msg))
  | os.NotExist => mret (∅, None)
  | os.ReadFails msg => mret (∅, Some (ErrIO msg))
  | os.Contents buf => mret (parse buf)
  end.

(** The body of [for k, v := range individualEnvMap]. *)
Definition setUnlessOriginal (originalVarNames : list string) (k v : string)
    (e : gmap string string) : gmap string string :=
  if negb (slices.Contains originalVarNames k)
  then default e (os.Setenv e k v)
  else e.

Definition mergeEnvMap (originalVarNames : list string)
    (individualEnvMap : gmap string string) : M unit := fun w =>
  (tt, mkWorld (map_fold (setUnlessOriginal originalVarNames) (environ w) individualEnvMap)
               (opened w)).

(** [for _, f := range filesFn { ... }] *)
Fixpoint loadLoop (fs : os.fileSystem) (originalVarNames : list string)
    (filesFn : list (M string)) : M (option error) :=
  match filesFn with
  | [] => mret None
  | f :: rest =>
      file ← f;
      r ← readFile fs file;
      match snd r with
      | Some individualErr => mret (Some individualErr)
      | None =>
          _ ← mergeEnvMap originalVarNames (fst r);
          loadLoop fs originalVarNames rest
      end
  end.

Definition filesFn (p : string) : list (M string) :=
  [ mret p;
    mret (p +:+ ".local");
    (env ← appEnv; mret (p +:+ "." +:+ env));
    (env ← appEnv; mret (p +:+ "." +:+ env +:+ ".local")) ].

Definition originalVarNamesOf (entries : list string) : list string :=
  (fun v => strings.SplitHead v "=") <$> entries.

Definition LoadEnv (fs : os.fileSystem) (path : list string) : M (option error) :=
  let path := if bool_decide (length path ≠ 1%nat) then [".env"] else path in
  let p := nth 0 path EmptyString in
  entries ← os_Environ;
  let originalVarNames := originalVarNamesOf entries in
  loadLoop fs originalVarNames (filesFn p).

(** * Properties *)

#[local] Arguments Ascii.eqb : simpl never.
#[local] Arguments String.eqb : simpl never.

(** ** Byte sequences *)

Lemma str_app_cons c s t : String c s +:+ t = String c (s +:+ t).
Proof. reflexivity. Qed.

Lemma str_app_nil_l s : EmptyString +:+ s = s.
Proof. reflexivity. Qed.

Lemma str_app_nil_r s : s +:+ EmptyString = s.
Proof. induction s as [|c s IH]; [done|]. by rewrite str_app_cons, IH. Qed.

Lemma str_app_assoc s t u : (s +:+ t) +:+ u = s +:+ t +:+ u.
Proof. induction s as [|c s IH]; [done|]. by rewrite !str_app_cons, IH. Qed.

Lemma str_length_app s t : String.length (s +:+ t) = (String.length s + String.length t)%nat.
Proof. induction s as [|c s IH]; [done|]. rewrite str_app_cons. cbn. by rewrite IH. Qed.

(** ** The environment primitives *)

Lemma Setenv_Some e k v e' :
  os.Setenv e k v = Some e' ->
  e' = <[k := v]> e /\ k <> EmptyString /\ hasByte "=" k = false
  /\ hasByte zero k = false /\ hasByte zero v = false.
Proof.
  unfold os.Setenv. destruct k as [|c k]; [discriminate|]. cbn [String.length Nat.eqb].
  destruct (hasByte "=" (String c k)) eqn:E1; [discriminate|].
  destruct (hasByte zero (String c k)) eqn:E2; [discriminate|].
  destruct (hasByte zero v) eqn:E3; [discriminate|].
  cbn. intros [= <-]. auto.
Qed.

Lemma Setenv_other e k v j :
  j <> k -> default e (os.Setenv e k v) !! j = e !! j.
Proof.
  intros Hne. destruct (os.Setenv e k v) as [e'|] eqn:E; [|done].
  apply Setenv_Some in E as [-> _]. cbn. by rewrite lookup_insert_ne.
Qed.

Lemma Setenv_valid e k v :
  k <> EmptyString -> hasByte "=" k = false -> hasByte zero k = false ->
  hasByte zero v = false ->
  os.Setenv e k v = Some (<[k := v]> e).
Proof.
  intros Hk H1 H2 H3. unfold os.Setenv. destruct k as [|c k]; [done|].
  cbn [String.length Nat.eqb]. by rewrite H1, H2, H3.
Qed.

Lemma SplitHead_entry k v :
  hasByte "=" k = false -> strings.SplitHead (k +:+ "=" +:+ v) "=" = k.
Proof.
  induction k as [|c k IH]; [done|]. unfold hasByte in *. cbn.
  rewrite (Ascii.eqb_sym "=" c), str_app_cons. cbn.
  destruct (Ascii.eqb c "=") eqn:E; [done|].
  cbn. intros H. f_equal. by apply IH.
Qed.

(** A name of the environment that [os.Setenv] could ever write to is in
    the snapshot [LoadEnv] takes. *)
Lemma originalVarNames_elem (e : gmap string string) k v :
  e !! k = Some v -> hasByte "=" k = false ->
  k ∈ originalVarNamesOf (os.Environ e).
Proof.
  intros Hk Heq. unfold originalVarNamesOf, os.Environ.
  apply list_elem_of_fmap. exists (k +:+ "=" +:+ v). split.
  - by rewrite SplitHead_entry.
  - apply list_elem_of_fmap. exists (k, v). split; [done|].
    by apply elem_of_map_to_list.
Qed.

(** Conversely, when no name of the environment contains [=] (the kernel
    and [os.Setenv] see to that), the snapshot has the names of the
    environment and nothing else. *)
Definition env_ok (e : gmap string string) : Prop :=
  forall k v, e !! k = Some v -> hasByte "=" k = false.

Lemma originalVarNames_inv (e : gmap string string) k :
  env_ok e -> k ∈ originalVarNamesOf (os.Environ e) -> is_Some (e !! k).
Proof.
  intros Hok. unfold originalVarNamesOf, os.Environ.
  intros (s & -> & Hs)%list_elem_of_fmap.
  apply list_elem_of_fmap in Hs as ([k' v'] & -> & Hkv).
  apply elem_of_map_to_list in Hkv. cbn.
  rewrite SplitHead_entry by eauto. eauto.
Qed.

(** ** Merging one layer *)

Definition mergeInto (names : list string) (m e : gmap string string)
    : gmap string string :=
  map_fold (setUnlessOriginal names) e m.

(** What [os.Setenv] accepts. *)
Definition settable (k v : string) : bool :=
  negb (String.length k =? 0)%nat && negb (hasByte "=" k) && negb (hasByte zero k)
  && negb (hasByte zero v).

Lemma Setenv_settable e k v :
  os.Setenv e k v = if settable k v then Some (<[k := v]> e) else None.
Proof.
  unfold os.Setenv, settable. destruct (String.length k =? 0)%nat; [done|].
  destruct (hasByte "=" k); [done|]. destruct (hasByte zero k); [done|].
  by destruct (hasByte zero v).
Qed.

(** The result of the [range] loop does not depend on the order in which
    the map is visited: key by key it is as follows. *)
Lemma mergeInto_lookup names (m e : gmap string string) k :
  mergeInto names m e !! k =
    match m !! k with
    | Some v =>
        if negb (slices.Contains names k) && settable k v then Some v else e !! k
    | None => e !! k
    end.
Proof.
  unfold mergeInto.
  apply (map_fold_weak_ind (fun r (m' : gmap string string) =>
    r !! k = match m' !! k with
             | Some v => if negb (slices.Contains names k) && settable k v
                         then Some v else e !! k
             | None => e !! k
             end)).
  - by rewrite lookup_empty.
  - intros i x m' r Hi IH. unfold setUnlessOriginal.
    destruct (decide (i = k)) as [->|Hne].
    + rewrite lookup_insert_eq, Hi in *. rewrite Setenv_settable.
      destruct (negb (slices.Contains names k)); cbn; [|done].
      destruct (settable k x); cbn; [|done]. by rewrite lookup_insert_eq.
    + rewrite lookup_insert_ne by done. rewrite <- IH.
      destruct (negb (slices.Contains names i)); [|done].
      by apply Setenv_other.
Qed.

(** ** The monadic steps, run on a world *)

Definition fileMap (fs : os.fileSystem) (filename : string)
    : gmap string string * option error :=
  match fs filename with
  | os.OpenFails msg => (∅, Some (ErrIO msg))
  | os.NotExist => (∅, None)
  | os.ReadFails msg => (∅, Some (ErrIO msg))
  | os.Contents buf => parse buf
  end.

Lemma readFile_run fs filename w :
  readFile fs filename w =
    (fileMap fs filename, mkWorld (environ w) (opened w ++ [filename])).
Proof.
  unfold readFile, fileMap, mbind, M_bind, os_Open, mret, M_ret.
  by destruct (fs filename).
Qed.

(** The name [appEnv] returns, and the environment it leaves. *)
Definition envName (e : gmap string string) : string :=
  if String.eqb (os.Getenv e EnvKey) EmptyString then DefaultEnv
  else os.Getenv e EnvKey.

Definition envDefaulted (e : gmap string string) : gmap string string :=
  if String.eqb (os.Getenv e EnvKey) EmptyString then <[EnvKey := DefaultEnv]> e
  else e.

Lemma appEnv_run w :
  appEnv w = (envName (environ w), mkWorld (envDefaulted (environ w)) (opened w)).
Proof.
  unfold appEnv, envName, envDefaulted, mbind, M_bind, os_Getenv, os_Setenv_, mret, M_ret.
  destruct (String.eqb (os.Getenv (environ w) EnvKey) EmptyString); [done|].
  by destruct w.
Qed.

Lemma mergeEnvMap_run names m w :
  mergeEnvMap names m w = (tt, mkWorld (mergeInto names m (environ w)) (opened w)).
Proof. done. Qed.

Lemma loadLoop_cons fs names f rest w :
  loadLoop fs names (f :: rest) w =
    let '(file, w1) := f w in
    match snd (fileMap fs file) with
    | Some e => (Some e, mkWorld (environ w1) (opened w1 ++ [file]))
    | None =>
        loadLoop fs names rest
          (mkWorld (mergeInto names (fst (fileMap fs file)) (environ w1))
                   (opened w1 ++ [file]))
    end.
Proof.
  cbn [loadLoop]. unfold mbind, M_bind. destruct (f w) as [file w1].
  rewrite readFile_run. by destruct (snd (fileMap fs file)).
Qed.

Lemma LoadEnv_run fs p w :
  LoadEnv fs [p] w =
    loadLoop fs (originalVarNamesOf (os.Environ (environ w))) (filesFn p) w.
Proof. done. Qed.

(** ** The loader leaves the variables of the environment alone *)

Lemma Getenv_lookup (e : gmap string string) k v :
  e !! k = Some v -> k <> EmptyString -> os.Getenv e k = v.
Proof.
  intros H Hk. unfold os.Getenv. destruct k; [done|]. cbn. by rewrite H.
Qed.

Lemma envDefaulted_frame (e : gmap string string) K v :
  e !! K = Some v -> (K = EnvKey -> v <> EmptyString) ->
  envDefaulted e !! K = Some v.
Proof.
  intros HK Hne. unfold envDefaulted.
  destruct (String.eqb (os.Getenv e EnvKey) EmptyString) eqn:E; [|done].
  apply String.eqb_eq in E.
  destruct (decide (K = EnvKey)) as [->|Hd].
  - rewrite (Getenv_lookup _ _ _ HK) in E by done. by destruct (Hne eq_refl).
  - by rewrite lookup_insert_ne.
Qed.

Lemma mergeInto_original (e0 m e : gmap string string) K v0 :
  e0 !! K = Some v0 ->
  mergeInto (originalVarNamesOf (os.Environ e0)) m e !! K = e !! K.
Proof.
  intros H0. rewrite mergeInto_lookup. destruct (m !! K) as [x|]; [|done].
  destruct (hasByte "=" K) eqn:E.
  - unfold settable. rewrite E. cbn. by rewrite !andb_false_r, ?andb_false_l.
  - unfold slices.Contains. rewrite bool_decide_eq_true_2; [done|].
    by eapply originalVarNames_elem.
Qed.

(** A step of the loop keeps [K] at [v]. *)
Definition keeps {A} (K v : string) (f : M A) : Prop :=
  forall w, environ w !! K = Some v -> environ (snd (f w)) !! K = Some v.

Lemma filesFn_keeps p K v :
  (K = EnvKey -> v <> EmptyString) -> Forall (keeps K v) (filesFn p).
Proof.
  intros Hne. unfold filesFn.
  assert (forall g : string -> string, keeps K v (env ← appEnv; mret (g env))) as Happ.
  { intros g w Hw. unfold mbind, M_bind, mret, M_ret. rewrite appEnv_run. cbn.
    by apply envDefaulted_frame. }
  repeat constructor; try (intros w Hw; exact Hw).
  - apply (Happ (fun env => p +:+ "." +:+ env)).
  - apply (Happ (fun env => p +:+ "." +:+ env +:+ ".local")).
Qed.

Lemma loadLoop_keeps fs names fns K v :
  (forall m e, mergeInto names m e !! K = e !! K) ->
  Forall (keeps K v) fns ->
  keeps K v (loadLoop fs names fns).
Proof.
  intros Hm Hf. induction Hf as [|f rest Hk _ IH]; intros w Hw; [done|].
  rewrite loadLoop_cons. specialize (Hk w Hw). destruct (f w) as [file w1].
  cbn in Hk. destruct (snd (fileMap fs file)); [done|].
  apply IH. cbn. by rewrite Hm.
Qed.

(** C1, as amended.  A variable present in the environment before
    [LoadEnv] is called has the same value when [LoadEnv] returns, with or
    without an error and whatever the layer files define; the one exception
    is [APP_ENV] held with an empty value, which [appEnv] treats as unset. *)
Theorem LoadEnv_keeps_original fs path w K v :
  environ w !! K = Some v ->
  (K = EnvKey -> v <> EmptyString) ->
  environ (snd (LoadEnv fs path w)) !! K = Some v.
Proof.
  intros HK Hne. unfold LoadEnv, mbind, M_bind, os_Environ.
  apply loadLoop_keeps; [|by apply filesFn_keeps|done].
  intros m e. by eapply mergeInto_original.
Qed.

Lemma LoadEnv_keeps_original_witness :
  let w := mkWorld {[ "AGE" := "18" ]} [] in
  let fs : os.fileSystem := fun f =>
    if String.eqb f ".env" then os.Contents "AGE=21" else os.NotExist in
  environ (snd (LoadEnv fs [".env"] w)) !! "AGE" = Some "18".
Proof.
  intros w fs. apply (LoadEnv_keeps_original fs [".env"] w "AGE" "18").
  - reflexivity.
  - intros H. vm_compute in H. discriminate H.
Defined.

(** C1 as stated fails: [APP_ENV] present with the empty value is set to
    the default although no file exists. *)
Lemma LoadEnv_defaults_empty_APP_ENV :
  ~ (forall fs path w K v,
       environ w !! K = Some v ->
       environ (snd (LoadEnv fs path w)) !! K = Some v).
Proof.
  intros H.
  specialize (H (fun _ => os.NotExist) [".env"]
                (mkWorld {[ "APP_ENV" := EmptyString ]} []) "APP_ENV" EmptyString eq_refl).
  vm_compute in H. discriminate H.
Qed.

(** ** A layer that fails to load *)

Lemma loadLoop_fails_at fs names (pre rest : list (M string)) f w w1 file w2 e :
  loadLoop fs names pre w = (None, w1) ->
  f w1 = (file, w2) ->
  snd (fileMap fs file) = Some e ->
  loadLoop fs names (pre ++ f :: rest)%list w
    = (Some e, mkWorld (environ w2) (opened w2 ++ [file])%list).
Proof.
  revert w. induction pre as [|g pre IH]; intros w Hpre Hf He.
  - injection Hpre as <-. cbn [app]. rewrite loadLoop_cons, Hf. by rewrite He.
  - cbn [app]. rewrite loadLoop_cons in *. destruct (g w) as [file0 w0].
    destruct (snd (fileMap fs file0)); [done|]. by apply IH.
Qed.

(** Building a path changes the environment at most by the default that
    [appEnv] writes, and opens no file. *)
Lemma filesFn_effect p f w file w2 :
  f ∈ filesFn p -> f w = (file, w2) ->
  opened w2 = opened w
  /\ (environ w2 = environ w
      \/ (os.Getenv (environ w) EnvKey = EmptyString
          /\ environ w2 = <[EnvKey := DefaultEnv]> (environ w))).
Proof.
  unfold filesFn. rewrite !elem_of_cons, elem_of_nil.
  intros [->|[->|[->|[->|[]]]]]; unfold mbind, M_bind, mret, M_ret;
    rewrite ?appEnv_run; intros [= <- <-]; cbn; (split; [done|]);
    try (by left); unfold envDefaulted;
    destruct (String.eqb (os.Getenv (environ w) EnvKey) EmptyString) eqn:E;
    try (by left); apply String.eqb_eq in E; by right.
Qed.

(** C3.  When the layers before some layer load without error, leaving
    the world [w1], and that layer's file fails to load with error [e] (an
    open or read error other than not-found, or a parse error, whatever map
    the parser had built by then), [LoadEnv] returns [e]; the environment
    it leaves is the one the earlier layers left, but for the default
    [appEnv] may have written while the failing layer's path was built: no
    key of the failing file is in it, and nothing is rolled back.  The
    failing file is the last one opened. *)
Theorem LoadEnv_error_no_rollback fs p w (pre rest : list (M string)) f w1 file w2 e :
  filesFn p = (pre ++ f :: rest)%list ->
  loadLoop fs (originalVarNamesOf (os.Environ (environ w))) pre w = (None, w1) ->
  f w1 = (file, w2) ->
  snd (fileMap fs file) = Some e ->
  LoadEnv fs [p] w = (Some e, mkWorld (environ w2) (opened w1 ++ [file])%list)
  /\ (environ w2 = environ w1
      \/ (os.Getenv (environ w1) EnvKey = EmptyString
          /\ environ w2 = <[EnvKey := DefaultEnv]> (environ w1)))
  /\ (forall k, is_Some (environ w1 !! k) -> is_Some (environ w2 !! k)).
Proof.
  intros Hsplit Hpre Hf He.
  assert (f ∈ filesFn p) as Hin by (rewrite Hsplit; set_solver).
  destruct (filesFn_effect _ _ _ _ _ Hin Hf) as [Hop Henv].
  split; [|split; [done|]].
  - rewrite LoadEnv_run, Hsplit, <- Hop. by eapply loadLoop_fails_at.
  - intros k Hk. destruct Henv as [->|[_ ->]]; [done|].
    destruct (decide (k = EnvKey)) as [->|Hne].
    + rewrite lookup_insert_eq. eauto.
    + by rewrite lookup_insert_ne.
Qed.

(** The key [X] of the base file stays set when the second layer is
    malformed, and the key [Y] that the malformed file defines before its
    bad line is not written. *)
Definition fs_bad_local : os.fileSystem := fun f =>
  if String.eqb f ".env" then os.Contents "X=1"
  else if String.eqb f ".env.local" then os.Contents ("Y=2" +:+ str1 LF +:+ "1BAD!=x")
  else os.NotExist.

Lemma LoadEnv_error_no_rollback_witness :
  LoadEnv fs_bad_local [".env"] (mkWorld ∅ [])
    = (Some (ErrUnexpectedChar "!" "1BAD!=x"),
       mkWorld {[ "X" := "1" ]} [".env"; ".env.local"]).
Proof.
  pose proof (LoadEnv_error_no_rollback fs_bad_local ".env" (mkWorld ∅ [])
    [mret ".env"]
    [env ← appEnv; mret (".env" +:+ "." +:+ env);
     env ← appEnv; mret (".env" +:+ "." +:+ env +:+ ".local")]
    (mret ".env.local")
    (mkWorld {[ "X" := "1" ]} [".env"]) ".env.local"
    (mkWorld {[ "X" := "1" ]} [".env"])
    (ErrUnexpectedChar "!" "1BAD!=x")) as H.
  apply H; vm_compute; reflexivity.
Defined.

(** ** The four layers of a load without error *)

(** The value the last of the maps [ms] that defines [k] gives it. *)
Fixpoint lastValue (ms : list (gmap string string)) (k : string) : option string :=
  match ms with
  | [] => None
  | m :: rest =>
      match lastValue rest k with
      | Some v => Some v
      | None => m !! k
      end
  end.

Lemma envName_lookup (e : gmap string string) v :
  e !! EnvKey = Some v -> v <> EmptyString -> envName e = v.
Proof.
  intros H Hne. unfold envName. rewrite (Getenv_lookup _ _ _ H) by done.
  destruct (String.eqb_spec v EmptyString); done.
Qed.

Lemma originalVarNames_absent (e : gmap string string) k :
  env_ok e -> e !! k = None ->
  slices.Contains (originalVarNamesOf (os.Environ e)) k = false.
Proof.
  intros Hok Hk. unfold slices.Contains. apply bool_decide_eq_false_2.
  intros [v Hv]%originalVarNames_inv; [congruence|done].
Qed.

(** Merging maps one after the other gives a key that is new and settable
    the value of the last of them that defines it. *)
Lemma mergeInto_last names (ms : list (gmap string string)) (e : gmap string string) k v :
  slices.Contains names k = false ->
  lastValue ms k = Some v ->
  settable k v = true ->
  foldl (fun acc m => mergeInto names m acc) e ms !! k = Some v.
Proof.
  intros Hn. revert e. induction ms as [|m ms IH]; intros e Hlast Hset; [done|].
  cbn [lastValue foldl] in *. destruct (lastValue ms k) as [x|] eqn:E.
  - injection Hlast as ->. by apply IH.
  - clear IH. assert (mergeInto names m e !! k = Some v) as H.
    { by rewrite mergeInto_lookup, Hlast, Hn, Hset. }
    revert H. generalize (mergeInto names m e). clear Hlast.
    induction ms as [|m' ms IH]; intros e' He'; [done|].
    cbn [lastValue foldl] in *. destruct (lastValue ms k) eqn:E'; [done|].
    apply IH; [done|]. by rewrite mergeInto_lookup, E.
Qed.

(** The name [appEnv] returns is read off the entry of [APP_ENV]. *)
Lemma envName_entry (e : gmap string string) :
  envName e = match e !! EnvKey with
              | Some v => if String.eqb v EmptyString then DefaultEnv else v
              | None => DefaultEnv
              end.
Proof.
  unfold envName, os.Getenv. change (String.length EnvKey =? 0)%nat with false. cbv iota.
  by destruct (e !! EnvKey).
Qed.

Lemma envDefaulted_name (e : gmap string string) :
  envDefaulted e !! EnvKey = Some (envName e) /\ envName e <> EmptyString.
Proof.
  unfold envDefaulted, envName, os.Getenv.
  change (String.length EnvKey =? 0)%nat with false. cbv iota.
  destruct (String.eqb_spec (default EmptyString (e !! EnvKey)) EmptyString) as [E|E].
  - by rewrite lookup_insert_eq.
  - split; [|done]. destruct (e !! EnvKey); [done|]. by destruct E.
Qed.

Section Layers.
Variable fs : os.fileSystem.
Variable p : string.
Variable e0 : gmap string string.
Variables m1 m2 m3 m4 : gmap string string.

Let names := originalVarNamesOf (os.Environ e0).

(** The environment after the base and local layers, the path of the
    third layer, the environment after the third layer, the path of the
    fourth layer, and the environment at the end. *)
Definition env2 : gmap string string := mergeInto names m2 (mergeInto names m1 e0).
Definition path3 : string := p +:+ "." +:+ envName env2.
Definition env3 : gmap string string := mergeInto names m3 (envDefaulted env2).
Definition path4 : string := p +:+ "." +:+ envName env3 +:+ ".local".
Definition env4 : gmap string string := mergeInto names m4 (envDefaulted env3).

Hypothesis layer1 : fileMap fs p = (m1, None).
Hypothesis layer2 : fileMap fs (p +:+ ".local") = (m2, None).
Hypothesis layer3 : fileMap fs path3 = (m3, None).
Hypothesis layer4 : fileMap fs path4 = (m4, None).

Lemma LoadEnv_four_layers :
  LoadEnv fs [p] (mkWorld e0 [])
    = (None, mkWorld env4 [p; p +:+ ".local"; path3; path4]).
Proof using All.
  unfold path4, env4, env3 in *. unfold path3 in *. unfold env2 in *.
  unfold names in *. clear names.
  rewrite LoadEnv_run. unfold filesFn. cbn [environ].
  rewrite loadLoop_cons. unfold mret at 1, M_ret at 1.
  rewrite layer1. cbn [fst snd environ opened app].
  rewrite loadLoop_cons. unfold mret at 1, M_ret at 1.
  rewrite layer2. cbn [fst snd environ opened app].
  rewrite loadLoop_cons. unfold mbind at 1, M_bind at 1. rewrite appEnv_run.
  unfold mret at 1, M_ret at 1. cbn [environ opened].
  rewrite layer3. cbn [fst snd environ opened app].
  rewrite loadLoop_cons. unfold mbind at 1, M_bind at 1. rewrite appEnv_run.
  unfold mret at 1, M_ret at 1. cbn [environ opened].
  rewrite layer4. cbn [fst snd environ opened app]. reflexivity.
Qed.

(** C2, as amended.  When the four layers load without error, a key that
    is absent from the environment beforehand and that [os.Setenv]
    accepts with the value [v] of the last layer defining it (a name that
    is not empty, no NUL byte in [v]) has the value [v] in the end.  The
    one exception is [APP_ENV] given the empty value by the last layer
    defining it when that layer is one of the first three: [appEnv], which
    runs when the third and the fourth path are built, replaces the empty
    value by the default.  The empty value of the fourth layer stays.  The
    layers are the base file, the local file, and the two files whose
    names are resolved when their turn comes. *)
Theorem LoadEnv_last_layer_wins K v :
  env_ok e0 ->
  e0 !! K = None ->
  lastValue [m1; m2; m3; m4] K = Some v ->
  settable K v = true ->
  fst (LoadEnv fs [p] (mkWorld e0 [])) = None
  /\ environ (snd (LoadEnv fs [p] (mkWorld e0 []))) !! K
     = Some (if decide (K = EnvKey /\ v = EmptyString /\ m4 !! K = None)
             then DefaultEnv else v).
Proof using All.
  intros Hok Habs Hlast Hset.
  rewrite LoadEnv_four_layers. cbn [fst snd environ].
  split; [done|].
  pose proof (originalVarNames_absent _ _ Hok Habs) as Hn. fold names in Hn.
  unfold env4, env3, env2. fold names.
  cbn [lastValue] in Hlast.
  set (e2' := mergeInto names m2 (mergeInto names m1 e0)).
  assert (m4 !! K = None -> m3 !! K = None -> e2' !! K = Some v) as H2.
  { intros E4 E3. rewrite E4, E3 in Hlast. unfold e2'.
    destruct (m2 !! K) as [x2|] eqn:E2.
    - injection Hlast as ->. by rewrite mergeInto_lookup, E2, Hn, Hset.
    - rewrite mergeInto_lookup, E2.
      destruct (m1 !! K) as [x1|] eqn:E1; [|done].
      injection Hlast as ->. by rewrite mergeInto_lookup, E1, Hn, Hset. }
  destruct (decide (K = EnvKey /\ v = EmptyString /\ m4 !! K = None))
    as [(-> & -> & E4)|Hd].
  - rewrite mergeInto_lookup, E4.
    destruct (envDefaulted_name (mergeInto names m3 (envDefaulted e2'))) as [-> _].
    f_equal. rewrite envName_entry, mergeInto_lookup. rewrite E4 in Hlast.
    destruct (m3 !! EnvKey) as [x3|] eqn:E3.
    + injection Hlast as ->. by rewrite Hn, Hset.
    + destruct (envDefaulted_name e2') as [-> _].
      by rewrite envName_entry, (H2 E4 eq_refl).
  - destruct (m4 !! K) as [x4|] eqn:E4.
    { injection Hlast as ->. by rewrite mergeInto_lookup, E4, Hn, Hset. }
    assert (K = EnvKey -> v <> EmptyString) as Hne by (intros -> ->; by apply Hd).
    rewrite mergeInto_lookup, E4. apply envDefaulted_frame; [|done].
    destruct (m3 !! K) as [x3|] eqn:E3.
    { injection Hlast as ->. by rewrite mergeInto_lookup, E3, Hn, Hset. }
    rewrite mergeInto_lookup, E3. apply envDefaulted_frame; [|done]. by apply H2.
Qed.

End Layers.

(** ** The paths of the four layers *)

Lemma mergeInto_is_Some names (m e : gmap string string) k :
  is_Some (e !! k) -> is_Some (mergeInto names m e !! k).
Proof.
  intros H. rewrite mergeInto_lookup. destruct (m !! k); [|done].
  by destruct (negb (slices.Contains names k) && settable k s).
Qed.

Section LayerPaths.
Variable fs : os.fileSystem.
Variable p : string.
Variable e0 : gmap string string.

Let r1 := fileMap fs p.
Let r2 := fileMap fs (p +:+ ".local").
Let e2 := env2 e0 (fst r1) (fst r2).
Let f3 := p +:+ "." +:+ envName e2.
Let r3 := fileMap fs f3.
Let e3 := env3 e0 (fst r1) (fst r2) (fst r3).
Let f4 := p +:+ "." +:+ envName e3 +:+ ".local".

(** The paths opened, whichever layer fails. *)
Lemma LoadEnv_opened :
  opened (snd (LoadEnv fs [p] (mkWorld e0 []))) =
    p :: match snd r1 with
         | Some _ => []
         | None =>
             (p +:+ ".local") ::
             match snd r2 with
             | Some _ => []
             | None => f3 :: match snd r3 with Some _ => [] | None => [f4] end
             end
         end.
Proof.
  unfold f4, e3, r3, f3, e2, r2, r1, env3, env2.
  rewrite LoadEnv_run. unfold filesFn. cbn [environ].
  rewrite loadLoop_cons. unfold mret at 1, M_ret at 1.
  destruct (snd (fileMap fs p)); [done|]. cbn [fst snd environ opened app].
  rewrite loadLoop_cons. unfold mret at 1, M_ret at 1.
  destruct (snd (fileMap fs (p +:+ ".local"))); [done|]. cbn [fst snd environ opened app].
  rewrite loadLoop_cons. unfold mbind at 1, M_bind at 1. rewrite appEnv_run.
  unfold mret at 1, M_ret at 1. cbn [environ opened].
  destruct (snd (fileMap fs _)); [done|]. cbn [fst snd environ opened app].
  rewrite loadLoop_cons. unfold mbind at 1, M_bind at 1. rewrite appEnv_run.
  unfold mret at 1, M_ret at 1. cbn [environ opened].
  by destruct (snd (fileMap fs _)).
Qed.

(** Once the third path is built, [APP_ENV] is defined. *)
Lemma LoadEnv_defines_name :
  snd r1 = None -> snd r2 = None ->
  is_Some (environ (snd (LoadEnv fs [p] (mkWorld e0 []))) !! EnvKey).
Proof.
  unfold r1, r2. intros H1 H2.
  rewrite LoadEnv_run. unfold filesFn. cbn [environ].
  rewrite loadLoop_cons. unfold mret at 1, M_ret at 1.
  rewrite H1. cbn [fst snd environ opened app].
  rewrite loadLoop_cons. unfold mret at 1, M_ret at 1.
  rewrite H2. cbn [fst snd environ opened app].
  rewrite loadLoop_cons. unfold mbind at 1, M_bind at 1. rewrite appEnv_run.
  unfold mret at 1, M_ret at 1. cbn [environ opened].
  match goal with |- context [envDefaulted ?e] => set (d2 := e) end.
  assert (is_Some (envDefaulted d2 !! EnvKey)) as Hd
    by (destruct (envDefaulted_name d2) as [-> _]; eauto).
  clear H1 H2.
  destruct (snd (fileMap fs (p +:+ "." +:+ envName d2))); [done|].
  cbn [fst snd environ opened app].
  rewrite loadLoop_cons. unfold mbind at 1, M_bind at 1. rewrite appEnv_run.
  unfold mret at 1, M_ret at 1. cbn [environ opened].
  match goal with |- context [envDefaulted (mergeInto ?n ?m ?e)] =>
    set (d3 := mergeInto n m e) end.
  assert (is_Some (envDefaulted d3 !! EnvKey)) as Hd3
    by (destruct (envDefaulted_name d3) as [-> _]; eauto).
  destruct (snd (fileMap fs (p +:+ "." +:+ envName d3 +:+ ".local"))); [done|].
  cbn [fst snd environ opened app loadLoop].
  by apply mergeInto_is_Some.
Qed.
(** C5, as amended.  [LoadEnv] takes the snapshot of the names first, but
    it does not resolve the environment name before the paths are built:
    each path is built when its layer's turn comes, and a layer is opened
    only when the layers before it loaded without error.  The name in the
    third path is resolved (read, or defaulted and written back when empty
    or absent, so that [APP_ENV] is defined when [LoadEnv] returns once the
    first two layers have loaded) in the environment left by merging the
    base and local layers, and the name in the fourth path is resolved
    again in the environment left by merging the third layer.  An
    [APP_ENV] of the environment fixes both names: its value, or the
    default when it is empty.  When [APP_ENV] is absent beforehand, the third file is named by
    the value of the last of the base and local files that defines
    [APP_ENV], provided [os.Setenv] accepts it (no NUL byte), and by the
    default when that value is empty or neither file defines it; the fourth
    file has the name of the third when the third file does not define
    [APP_ENV], and when it defines it with a value [os.Setenv] accepts,
    that value names the fourth file in the same way. *)
Theorem LoadEnv_paths_built_lazily :
  opened (snd (LoadEnv fs [p] (mkWorld e0 []))) =
    p :: match snd r1 with
         | Some _ => []
         | None =>
             (p +:+ ".local") ::
             match snd r2 with
             | Some _ => []
             | None => f3 :: match snd r3 with Some _ => [] | None => [f4] end
             end
         end
  /\ (snd r1 = None -> snd r2 = None ->
      is_Some (environ (snd (LoadEnv fs [p] (mkWorld e0 []))) !! EnvKey))
  /\ (forall v, e0 !! EnvKey = Some v ->
        envName e2 = (if String.eqb v EmptyString then DefaultEnv else v)
        /\ envName e3 = envName e2)
  /\ (env_ok e0 -> e0 !! EnvKey = None ->
        (lastValue [fst r1; fst r2] EnvKey = None -> envName e2 = DefaultEnv)
        /\ (forall v, lastValue [fst r1; fst r2] EnvKey = Some v ->
              settable EnvKey v = true ->
              envName e2 = if String.eqb v EmptyString then DefaultEnv else v)
        /\ (fst r3 !! EnvKey = None -> envName e3 = envName e2)
        /\ (forall v, fst r3 !! EnvKey = Some v -> settable EnvKey v = true ->
              envName e3 = if String.eqb v EmptyString then DefaultEnv else v)).
Proof.
  split; [apply LoadEnv_opened|]. split; [apply LoadEnv_defines_name|]. split.
  - intros v Hv.
    assert (e2 !! EnvKey = Some v) as H2.
    { unfold e2, env2. by rewrite !(mergeInto_original _ _ _ _ _ Hv). }
    assert (e3 !! EnvKey = envDefaulted e2 !! EnvKey) as H3.
    { unfold e3, env3. fold e2. by rewrite (mergeInto_original _ _ _ _ _ Hv). }
    split; [by rewrite envName_entry, H2|].
    destruct (envDefaulted_name e2) as [Hd Hne]. rewrite Hd in H3.
    rewrite (envName_entry e3), H3.
    by destruct (String.eqb_spec (envName e2) EmptyString).
  - intros Hok Habs.
    pose proof (originalVarNames_absent _ _ Hok Habs) as Hn.
    split; [|split; [|split]].
    + cbn [lastValue]. intros Hlast.
      destruct (fst r2 !! EnvKey) eqn:E2; [done|].
      destruct (fst r1 !! EnvKey) eqn:E1; [done|].
      rewrite envName_entry. unfold e2, env2.
      by rewrite !mergeInto_lookup, E2, E1, Habs.
    + intros v Hlast Hset. rewrite envName_entry. unfold e2, env2.
      pose proof (mergeInto_last _ [fst r1; fst r2] e0 EnvKey v Hn Hlast Hset) as H.
      cbn [foldl] in H. by rewrite H.
    + intros E3. destruct (envDefaulted_name e2) as [Hd Hne].
      rewrite (envName_entry e3). unfold e3, env3. fold e2.
      rewrite mergeInto_lookup, E3, Hd.
      by destruct (String.eqb_spec (envName e2) EmptyString).
    + intros v E3 Hset. rewrite (envName_entry e3). unfold e3, env3. fold e2.
      by rewrite mergeInto_lookup, E3, Hn, Hset.
Qed.

End LayerPaths.

(** The base file sets [APP_ENV], which the environment does not have:
    the third and fourth files are those of [prod]. *)
Definition fs_prod : os.fileSystem := fun f =>
  if String.eqb f ".env" then os.Contents ("APP_ENV=prod" +:+ str1 LF +:+ "X=base")
  else if String.eqb f ".env.prod" then os.Contents "X=fromprod"
  else if String.eqb f ".env.dev" then os.Contents "X=fromdev"
  else os.NotExist.

Lemma LoadEnv_paths_built_lazily_witness :
  opened (snd (LoadEnv fs_prod [".env"] (mkWorld ∅ [])))
    = [".env"; ".env.local"; ".env.prod"; ".env.prod.local"].
Proof.
  etransitivity; [apply (LoadEnv_paths_built_lazily fs_prod ".env" ∅)|].
  vm_compute. reflexivity.
Defined.

(** C5 as stated fails: were the name resolved in the environment as it is
    before any file is parsed, the third file would be that of [dev]. *)
Lemma LoadEnv_name_from_base_file :
  ~ (forall fs p e0 w',
       LoadEnv fs [p] (mkWorld e0 []) = (None, w') ->
       opened w' = [p; p +:+ ".local"; p +:+ "." +:+ envName e0;
                    p +:+ "." +:+ envName e0 +:+ ".local"]).
Proof.
  intros H.
  specialize (H fs_prod ".env" ∅ (snd (LoadEnv fs_prod [".env"] (mkWorld ∅ [])))).
  assert (LoadEnv fs_prod [".env"] (mkWorld ∅ [])
          = (None, snd (LoadEnv fs_prod [".env"] (mkWorld ∅ [])))) as Hrun
    by (vm_compute; reflexivity).
  specialize (H Hrun). vm_compute in H. discriminate H.
Qed.

(** The local file redefines [X]. *)
Definition fs_local : os.fileSystem := fun f =>
  if String.eqb f ".env" then os.Contents "X=1"
  else if String.eqb f ".env.local" then os.Contents "X=2"
  else os.NotExist.

Lemma LoadEnv_last_layer_wins_witness :
  fst (LoadEnv fs_local [".env"] (mkWorld ∅ [])) = None
  /\ environ (snd (LoadEnv fs_local [".env"] (mkWorld ∅ []))) !! "X" = Some "2".
Proof.
  refine (LoadEnv_last_layer_wins fs_local ".env" ∅ {[ "X" := "1" ]} {[ "X" := "2" ]} ∅ ∅
            _ _ _ _ "X" "2" _ _ _ _).
  - vm_compute; reflexivity.
  - vm_compute; reflexivity.
  - vm_compute; reflexivity.
  - vm_compute; reflexivity.
  - intros k v H. rewrite lookup_empty in H. discriminate H.
  - reflexivity.
  - vm_compute; reflexivity.
  - vm_compute; reflexivity.
Defined.

(** C2 as stated fails: [APP_ENV], absent beforehand, is defined by the
    base file and, with the empty value, by the local file; the empty value
    of the last layer that defines it is replaced by the default when the
    third path is built. *)
Definition fs_empty_env : os.fileSystem := fun f =>
  if String.eqb f ".env" then os.Contents "APP_ENV=x"
  else if String.eqb f ".env.local" then os.Contents "APP_ENV="
  else os.NotExist.

Lemma LoadEnv_last_layer_empty_APP_ENV :
  ~ (forall fs p e0 m1 m2 m3 m4 K v,
       fileMap fs p = (m1, None) ->
       fileMap fs (p +:+ ".local") = (m2, None) ->
       fileMap fs (path3 p e0 m1 m2) = (m3, None) ->
       fileMap fs (path4 p e0 m1 m2 m3) = (m4, None) ->
       e0 !! K = None ->
       (1 < length (filter (fun m : gmap string string => is_Some (m !! K)) [m1; m2; m3; m4]))%nat ->
       lastValue [m1; m2; m3; m4] K = Some v ->
       environ (snd (LoadEnv fs [p] (mkWorld e0 []))) !! K = Some v).
Proof.
  intros H.
  specialize (H fs_empty_env ".env" ∅ {[ "APP_ENV" := "x" ]} {[ "APP_ENV" := EmptyString ]}
                ∅ ∅ "APP_ENV" EmptyString).
  assert (environ (snd (LoadEnv fs_empty_env [".env"] (mkWorld ∅ []))) !! "APP_ENV"
          = Some "dev") as Hdev by (vm_compute; reflexivity).
  rewrite Hdev in H. discriminate H.
  - vm_compute; reflexivity.
  - vm_compute; reflexivity.
  - vm_compute; reflexivity.
  - vm_compute; reflexivity.
  - reflexivity.
  - vm_compute. lia.
  - vm_compute; reflexivity.
Qed.

(** The same claim fails on a key [os.Setenv] refuses: the empty key that
    a line without a name gives is never written. *)
Example LoadEnv_empty_key_not_set :
  let fs : os.fileSystem := fun f =>
    if String.eqb f ".env" then os.Contents "=a"
    else if String.eqb f ".env.local" then os.Contents "=b"
    else os.NotExist in
  fileMap fs ".env" = ({[ EmptyString := "a" ]}, None)
  /\ fileMap fs ".env.local" = ({[ EmptyString := "b" ]}, None)
  /\ environ (snd (LoadEnv fs [".env"] (mkWorld ∅ []))) !! EmptyString = None.
Proof. vm_compute. auto. Qed.

(** The last layer may give [APP_ENV] the empty value: nothing runs after
    it that would replace it. *)
Definition fs_empty_last : os.fileSystem := fun f =>
  if String.eqb f ".env" then os.Contents "APP_ENV=x"
  else if String.eqb f ".env.x" then os.Contents "APP_ENV=y"
  else if String.eqb f ".env.y.local" then os.Contents "APP_ENV="
  else os.NotExist.

Example LoadEnv_last_layer_keeps_empty_APP_ENV :
  LoadEnv fs_empty_last [".env"] (mkWorld ∅ [])
    = (None, mkWorld {[ "APP_ENV" := EmptyString ]}
                     [".env"; ".env.local"; ".env.x"; ".env.y.local"]).
Proof. vm_compute. reflexivity. Qed.

(** An empty [APP_ENV] in the base file: the third file is that of the
    default. *)
Example LoadEnv_empty_name_in_base :
  let fs : os.fileSystem := fun f =>
    if String.eqb f ".env" then os.Contents "APP_ENV=" else os.NotExist in
  LoadEnv fs [".env"] (mkWorld ∅ [])
    = (None, mkWorld {[ "APP_ENV" := "dev" ]}
                     [".env"; ".env.local"; ".env.dev"; ".env.dev.local"]).
Proof. vm_compute. reflexivity. Qed.

(** A layer that fails ends the load: the later paths are not built. *)
Example LoadEnv_stops_at_bad_layer :
  opened (snd (LoadEnv fs_bad_local [".env"] (mkWorld ∅ []))) = [".env"; ".env.local"].
Proof. vm_compute. reflexivity. Qed.

(** ** The two quoting styles *)

Definition DQ : string := str1 prefixDoubleQuote.
Definition NL : string := str1 LF.

(** C9.  The statement [KEY="a\nb"] parses to the value [a], newline, [b];
    the statement [KEY='a\nb'] parses to the four characters [a],
    backslash, [n], [b], as they are. *)
Theorem quoting_round_trip :
  parse ("KEY=" +:+ DQ +:+ "a\nb" +:+ DQ)
    = ({[ "KEY" := "a" +:+ NL +:+ "b" ]}, None)
  /\ parse "KEY='a\nb'"
    = ({[ "KEY" := String "a" (String BACKSLASH (String "n" (String "b" EmptyString))) ]},
       None).
Proof. split; vm_compute; reflexivity. Qed.

(** The single-quoted value is taken as it is whatever the context holds:
    neither the escape nor the reference is touched. *)
Example single_quoted_verbatim (vars : gmap string string) rest :
  extractVarValue ("'a\n$A'" +:+ rest) vars = Ok ("a\n$A", rest).
Proof. vm_compute. reflexivity. Qed.

(** ** Keys the lexer lets through *)

(** C8 fails on the code.  The lexer returns, without an error, the empty
    key for a statement that starts with the separator or has none, a key
    with a space inside, and a key made of a Latin-1 letter byte. *)
Theorem locateKeyName_bad_keys :
  locateKeyName "=x" = Ok (EmptyString, "x")
  /\ locateKeyName "FOO" = Ok (EmptyString, "FOO")
  /\ locateKeyName "A B=x" = Ok ("A B", "x")
  /\ locateKeyName (str1 (chr 0xC0) +:+ "=x") = Ok (str1 (chr 0xC0), "x").
Proof. repeat split; vm_compute; reflexivity. Qed.

(** The empty key reaches the map of the file. *)
Example parse_empty_key :
  parse "=x" = ({[ EmptyString := "x" ]}, None).
Proof. vm_compute. reflexivity. Qed.

(** ** Escapes: the behaviour on a stray pair *)


(** ** The scanner: which bytes are skipped *)

(** C6 as stated fails: the newline is not in the fixed set of [isSpace]
    and is not the comment marker, yet the scanner skips it; so it does the
    ideographic space U+3000. *)
Lemma getStatementStart_skips_newline :
  ~ (forall c t,
       isSpace (N_of_ascii c) = false -> c <> charComment ->
       getStatementStart (String c t) = Some (String c t)).
Proof.
  intros H. specialize (H LF "A=1"). vm_compute in H.
  assert (Some "A=1" = Some (String LF "A=1")) as E.
  { apply H; [reflexivity|]. intros E. discriminate E. }
  discriminate E.
Qed.

Example getStatementStart_skips_U3000 :
  utf8.EncodeRune 0x3000 = String (chr 0xE3) (String (chr 0x80) (String (chr 0x80) EmptyString))
  /\ getStatementStart (utf8.EncodeRune 0x3000 +:+ "A=1") = Some "A=1".
Proof. split; vm_compute; reflexivity. Qed.

(** ** Runes never straddle an ASCII byte *)

Lemma byte_at_0 c t : byte_at (String c t) 0 = N_of_ascii c.
Proof. reflexivity. Qed.

Lemma byte_at_S c t i : byte_at (String c t) (S i) = byte_at t i.
Proof. reflexivity. Qed.

Lemma byte_at_ge s i : (String.length s <= i)%nat -> byte_at s i = 0%N.
Proof.
  revert i. induction s as [|c s IH]; intros i Hi; [by destruct i|].
  destruct i; cbn in Hi; [lia|]. rewrite byte_at_S. apply IH. lia.
Qed.

Lemma N_of_ascii_lt c : (N_of_ascii c < 256)%N.
Proof. apply N_ascii_bounded. Qed.

(** The bytes of a decoded rune after the first are continuation bytes. *)
Lemma DecodeRune_width s :
  s <> EmptyString ->
  (1 <= snd (utf8.DecodeRune s))%nat
  /\ forall i, (1 <= i < snd (utf8.DecodeRune s))%nat ->
       (i < String.length s)%nat /\ (0x80 <= byte_at s i)%N.
Proof.
  intros Hs. unfold utf8.DecodeRune.
  destruct s as [|c t]; [done|]. cbn [String.length].
  change (S (String.length t) <? 1)%nat with false. cbv iota.
  set (n := S (String.length t)). rewrite byte_at_0. set (p := String c t).
  set (p0 := N_of_ascii c).
  destruct (utf8.as_ <=? utf8.first p0)%N eqn:Eas; cbn [snd]; [split; [lia|intros; lia]|].
  set (x := utf8.first p0) in *.
  assert (x = utf8.s1 \/ x = utf8.s2 \/ x = utf8.s3 \/ x = utf8.s4 \/ x = utf8.s5
          \/ x = utf8.s6 \/ x = utf8.s7) as Hx.
  { subst x. unfold utf8.first in *.
    repeat match goal with
           | |- context [if ?b then _ else _] => destruct b eqn:?
           end; try discriminate Eas; auto 10. }
  assert (forall lo hi b1, (lo, hi) = utf8.acceptRanges (N.shiftr x 4) ->
            ((b1 <? lo) || (hi <? b1))%N = false -> (0x80 <= b1)%N) as Hacc.
  { intros lo hi b1 Hr Hb. apply orb_false_iff in Hb as [Hb _].
    apply N.ltb_ge in Hb.
    destruct Hx as [->|[->|[->|[->|[->|[->| ->]]]]]]; vm_compute in Hr;
      injection Hr as -> ->; lia. }
  assert (forall b, ((b <? utf8.locb) || (utf8.hicb <? b))%N = false -> (utf8.locb <= b)%N) as Hcb.
  { intros b Hb. apply orb_false_iff in Hb as [Hb _]. by apply N.ltb_ge in Hb. }
  unfold utf8.locb in Hcb.
  destruct (n <? N.to_nat (N.land x 7))%nat eqn:En; cbn [snd]; [split; [lia|intros; lia]|].
  apply Nat.ltb_ge in En.
  destruct (utf8.acceptRanges (N.shiftr x 4)) as [lo hi] eqn:Er. cbn [fst snd].
  destruct ((byte_at p 1 <? lo) || (hi <? byte_at p 1))%N eqn:E1; cbn [snd];
    [split; [lia|intros; lia]|].
  pose proof (Hacc lo hi _ eq_refl E1) as H1.
  assert (1 < n)%nat as Hn1.
  { destruct (decide (1 < n)%nat); [done|].
    rewrite byte_at_ge in H1 by (subst p n; cbn in *; lia). lia. }
  destruct (N.to_nat (N.land x 7) <=? 2)%nat eqn:E2; cbn [snd].
  { split; [lia|]. intros i Hi. assert (i = 1%nat) as -> by lia. done. }
  destruct ((byte_at p 2 <? utf8.locb) || (utf8.hicb <? byte_at p 2))%N eqn:E3; cbn [snd];
    [split; [lia|intros; lia]|].
  pose proof (Hcb _ E3) as H2.
  assert (2 < n)%nat as Hn2.
  { destruct (decide (2 < n)%nat); [done|].
    rewrite byte_at_ge in H2 by (subst p n; cbn in *; lia). lia. }
  destruct (N.to_nat (N.land x 7) <=? 3)%nat eqn:E4; cbn [snd].
  { split; [lia|]. intros i Hi.
    assert (i = 1%nat \/ i = 2%nat) as [-> | ->] by lia; done. }
  destruct ((byte_at p 3 <? utf8.locb) || (utf8.hicb <? byte_at p 3))%N eqn:E5; cbn [snd];
    [split; [lia|intros; lia]|].
  pose proof (Hcb _ E5) as H3.
  assert (3 < n)%nat as Hn3.
  { destruct (decide (3 < n)%nat); [done|].
    rewrite byte_at_ge in H3 by (subst p n; cbn in *; lia). lia. }
  split; [lia|]. intros i Hi.
  assert (i = 1%nat \/ i = 2%nat \/ i = 3%nat) as [-> | [-> | ->]] by lia; done.
Qed.

(** ** Slices of a concatenation *)

Lemma slice_from_0 s : slice_from s 0 = s.
Proof. reflexivity. Qed.

Lemma slice_from_nil n : slice_from EmptyString n = EmptyString.
Proof. by destruct n. Qed.

Lemma slice_to_nil n : slice_to EmptyString n = EmptyString.
Proof. by destruct n. Qed.

Lemma slice_to_from s n : slice_to s n +:+ slice_from s n = s.
Proof.
  revert s. induction n as [|n IH]; intros s; [done|].
  destruct s as [|c s]; [done|]. cbn [slice_to slice_from]. by rewrite str_app_cons, IH.
Qed.

Lemma slice_to_app s t n :
  (n <= String.length s)%nat -> slice_to (s +:+ t) n = slice_to s n.
Proof.
  revert s. induction n as [|n IH]; intros s Hn; [done|].
  destruct s as [|c s]; cbn in Hn; [lia|].
  rewrite str_app_cons. cbn [slice_to]. rewrite IH; [done|lia].
Qed.

Lemma slice_from_app s t n :
  (n <= String.length s)%nat -> slice_from (s +:+ t) n = slice_from s n +:+ t.
Proof.
  revert s. induction n as [|n IH]; intros s Hn; [done|].
  destruct s as [|c s]; cbn in Hn; [lia|].
  rewrite str_app_cons. cbn [slice_from]. rewrite IH; [done|lia].
Qed.

Lemma slice_to_length s t : slice_to (s +:+ t) (String.length s) = s.
Proof. induction s as [|c s IH]; [done|]. rewrite str_app_cons. cbn. by rewrite IH. Qed.

Lemma slice_from_length s t : slice_from (s +:+ t) (String.length s) = t.
Proof. induction s as [|c s IH]; [done|]. rewrite str_app_cons. by cbn. Qed.

Lemma length_slice_from s n :
  String.length (slice_from s n) = (String.length s - n)%nat.
Proof.
  revert s. induction n as [|n IH]; intros s; cbn; [lia|].
  destruct s as [|c s]; [done|]. cbn. apply IH.
Qed.

Lemma byte_at_app_r s t : byte_at (s +:+ t) (String.length s) = byte_at t 0.
Proof. induction s as [|c s IH]; [done|]. rewrite str_app_cons. cbn [String.length]. by rewrite byte_at_S. Qed.

Lemma list_ascii_of_string_slice_from s n c :
  In c (list_ascii_of_string (slice_from s n)) -> In c (list_ascii_of_string s).
Proof.
  revert s. induction n as [|n IH]; intros s; [done|].
  destruct s as [|d s]; [done|]. cbn. intros H. right. by apply IH.
Qed.

Lemma hasByte_false c s : hasByte c s = false <-> ~ In c (list_ascii_of_string s).
Proof.
  unfold hasByte. split.
  - intros H Hin. apply not_true_iff_false in H. apply H.
    apply existsb_exists. exists c. split; [done|]. apply Ascii.eqb_refl.
  - intros H. apply not_true_iff_false. intros (d & Hd & E)%existsb_exists.
    apply Ascii.eqb_eq in E. by subst.
Qed.

(** An input that is empty or starts with an ASCII byte. *)
Definition asciiHead (s : string) : Prop :=
  match s with
  | EmptyString => True
  | String c _ => (N_of_ascii c < 0x80)%N
  end.

Lemma step_ascii c t :
  (N_of_ascii c < 0x80)%N -> regexp.step (String c t) = (N_of_ascii c, 1%nat).
Proof.
  intros H. unfold regexp.step. rewrite byte_at_0. unfold utf8.RuneSelf.
  apply N.ltb_lt in H. by rewrite H.
Qed.

Lemma step_width s :
  s <> EmptyString ->
  (1 <= snd (regexp.step s))%nat
  /\ forall i, (1 <= i < snd (regexp.step s))%nat ->
       (i < String.length s)%nat /\ (0x80 <= byte_at s i)%N.
Proof.
  intros Hs. unfold regexp.step.
  destruct (byte_at s 0 <? utf8.RuneSelf)%N; [|by apply DecodeRune_width].
  cbn. split; [lia|intros; lia].
Qed.

(** A rune that starts before an ASCII byte ends before it. *)
Lemma step_within pre rest :
  pre <> EmptyString -> asciiHead rest ->
  (1 <= snd (regexp.step (pre +:+ rest)) <= String.length pre)%nat.
Proof.
  intros Hpre Hrest.
  assert (pre +:+ rest <> EmptyString) as Hne by (by destruct pre).
  destruct (step_width _ Hne) as [H1 Hw]. split; [done|].
  destruct (decide (snd (regexp.step (pre +:+ rest)) <= String.length pre)%nat); [done|].
  destruct (Hw (String.length pre)) as [Hlen Hb].
  { destruct pre; [done|]. cbn [String.length] in *. lia. }
  rewrite byte_at_app_r in Hb. rewrite str_length_app in Hlen.
  destruct rest as [|c rest]; [cbn in Hlen; lia|].
  rewrite byte_at_0 in Hb. cbn in Hrest. lia.
Qed.

(** ** The replacement loop *)

Section ReplaceAll.
Variable re : regexp.pattern.
Variable repl : list string -> string.

Lemma replaceAll_drop d s :
  regexp.replaceAll_from re repl 0 d s
    = regexp.replaceAll_from re repl 0 0 (slice_from s d).
Proof.
  revert s. induction d as [|d IH]; intros s; [done|].
  destruct s as [|c t]; [done|]. cbn [regexp.replaceAll_from slice_from]. apply IH.
Qed.

Lemma replaceAll_copy k s :
  regexp.replaceAll_from re repl k 0 s
    = slice_to s k +:+ regexp.replaceAll_from re repl 0 0 (slice_from s k).
Proof.
  revert s. induction k as [|k IH]; intros s; [done|].
  destruct s as [|c t]; [done|]. cbn [regexp.replaceAll_from slice_from slice_to].
  by rewrite IH, str_app_cons.
Qed.

(** At a match: the replacement, then the input after the match. *)
Lemma replaceAll_match c t sub :
  re (String c t) = Some sub ->
  regexp.replaceAll_from re repl 0 0 (String c t)
    = repl sub +:+
      regexp.replaceAll_from re repl 0 0
        (slice_from t (String.length (regexp.whole sub) - 1)).
Proof.
  intros Hm. cbn [regexp.replaceAll_from]. rewrite Hm. by rewrite replaceAll_drop.
Qed.

(** Where no match starts: the input is copied up to the next ASCII byte. *)
Lemma replaceAll_prefix (trig : ascii -> bool) pre rest :
  (forall c t, trig c = false -> re (String c t) = None) ->
  (forall c, In c (list_ascii_of_string pre) -> trig c = false) ->
  asciiHead rest ->
  regexp.replaceAll_from re repl 0 0 (pre +:+ rest)
    = pre +:+ regexp.replaceAll_from re repl 0 0 rest.
Proof.
  intros Hre. remember (String.length pre) as n eqn:Hn.
  revert pre Hn. induction n as [n IH] using lt_wf_ind. intros pre Hn Hpre Hrest.
  destruct pre as [|c pre']; [done|].
  pose proof (step_within (String c pre') rest ltac:(done) Hrest) as [Hw1 Hw2].
  rewrite !str_app_cons in *. cbn [regexp.replaceAll_from].
  rewrite Hre by (apply Hpre; cbn; auto).
  set (w := snd (regexp.step (String c (pre' +:+ rest)))) in *.
  cbn [String.length] in Hw2.
  rewrite replaceAll_copy, slice_to_app, slice_from_app by lia.
  rewrite (IH (String.length (slice_from pre' (w - 1)))); try done.
  - by rewrite <- str_app_assoc, slice_to_from.
  - subst n. rewrite length_slice_from. cbn. lia.
  - intros d Hd. apply Hpre. cbn. right. by eapply list_ascii_of_string_slice_from.
Qed.

End ReplaceAll.

(** ** Escape decoding *)













(** ** Variable expansion *)

(** A name of the pattern: a non-empty run of bytes of [[A-Z0-9_]]. *)
Definition isVarName (name : string) : Prop :=
  name <> EmptyString /\ forallb isVarNameChar (list_ascii_of_string name) = true.

(** What may follow a bare reference for the name to end there and for no
    closing brace to be swallowed. *)
Definition endsName (post : string) : Prop :=
  match post with
  | EmptyString => True
  | String c _ => isVarNameChar c = false /\ c <> "}"%char
  end.

Lemma isVarNameChar_not c d :
  isVarNameChar c = true -> isVarNameChar d = false -> Ascii.eqb c d = false.
Proof. intros Hc Hd. destruct (Ascii.eqb_spec c d) as [->|]; [congruence|done]. Qed.

Lemma span_name name post :
  forallb isVarNameChar (list_ascii_of_string name) = true ->
  match post with EmptyString => True | String c _ => isVarNameChar c = false end ->
  regexp.span isVarNameChar (name +:+ post) = (name, post).
Proof.
  intros Hn Hp. induction name as [|c name IH].
  - rewrite str_app_nil_l. destruct post as [|d post]; [done|]. cbn [regexp.span]. by rewrite Hp.
  - cbn [list_ascii_of_string forallb] in Hn. apply andb_true_iff in Hn as [Hc Hn].
    rewrite str_app_cons. cbn [regexp.span]. by rewrite Hc, IH.
Qed.

Lemma expandVarRegex_other c t :
  Ascii.eqb c BACKSLASH || Ascii.eqb c "$" = false -> expandVarRegex (String c t) = None.
Proof.
  intros [H1 H2]%orb_false_iff. unfold expandVarRegex, regexp.opt_char.
  by rewrite H1, H2.
Qed.

Lemma opt_char_other c d t :
  Ascii.eqb d c = false -> regexp.opt_char c (String d t) = (EmptyString, String d t).
Proof. intros H. unfold regexp.opt_char. by rewrite H. Qed.

Lemma opt_char_same c t : regexp.opt_char c (String c t) = (str1 c, t).
Proof. unfold regexp.opt_char. by rewrite Ascii.eqb_refl. Qed.

Lemma opt_char_ends post :
  endsName post -> regexp.opt_char "}" post = (EmptyString, post).
Proof.
  destruct post as [|d post]; [done|]. intros [_ Hd]. apply opt_char_other.
  by destruct (Ascii.eqb_spec d "}").
Qed.

Lemma whole_length (ref post : string) :
  slice_to (ref +:+ post) (String.length (ref +:+ post) - String.length post) = ref.
Proof.
  rewrite str_length_app. replace (String.length ref + String.length post - String.length post)%nat
    with (String.length ref) by lia.
  apply slice_to_length.
Qed.

Lemma expandVarRegex_bare name post :
  isVarName name -> endsName post ->
  expandVarRegex (String "$" (name +:+ post))
    = Some [String "$" name; EmptyString; "$"; EmptyString; name].
Proof.
  intros [Hne Hn] Hp. unfold expandVarRegex.
  rewrite opt_char_other by reflexivity. rewrite Ascii.eqb_refl.
  destruct name as [|c name]; [done|]. clear Hne.
  assert (isVarNameChar c = true) as Hc.
  { cbn [list_ascii_of_string forallb] in Hn. by apply andb_true_iff in Hn as [? _]. }
  rewrite (str_app_cons c). rewrite !(opt_char_other _ c) by (by apply isVarNameChar_not).
  rewrite <- (str_app_cons c).
  rewrite span_name; [|done|destruct post; [done|apply Hp]].
  rewrite opt_char_ends by done.
  do 2 f_equal. apply (whole_length (String "$" (String c name)) post).
Qed.

Lemma expandVarRegex_braced name post :
  isVarName name ->
  expandVarRegex (String "$" (String "{" (name +:+ String "}" post)))
    = Some [String "$" (String "{" (name +:+ "}")); EmptyString; "$"; EmptyString; name].
Proof.
  intros [Hne Hn]. unfold expandVarRegex.
  rewrite opt_char_other by reflexivity. rewrite Ascii.eqb_refl.
  rewrite (opt_char_other "(") by reflexivity. rewrite opt_char_same.
  rewrite span_name by done. rewrite opt_char_same.
  do 2 f_equal.
  replace (String "$" (String "{" (name +:+ String "}" post)))
    with (String "$" (String "{" (name +:+ "}")) +:+ post).
  - apply whole_length.
  - rewrite !str_app_cons. do 2 f_equal. by rewrite str_app_assoc.
Qed.

(** The callback of [expandVariables] on a match without a backslash and
    with a name. *)
Definition expandCallback (m : gmap string string) (s : string) : string :=
  match regexp.FindStringSubmatch expandVarRegex s with
  | None => s
  | Some submatch =>
      if String.eqb (regexp.group 1 submatch) (str1 BACKSLASH)
         || String.eqb (regexp.group 2 submatch) "("
      then slice_from (regexp.group 0 submatch) 1
      else if negb (String.eqb (regexp.group 4 submatch) EmptyString)
      then mapGet m (regexp.group 4 submatch)
      else s
  end.

Lemma expandVariables_unfold v m :
  expandVariables v m
    = regexp.replaceAll_from expandVarRegex
        (fun sub => expandCallback m (regexp.whole sub)) 0 0 v.
Proof. reflexivity. Qed.

Lemma expandCallback_name (m : gmap string string) c t name :
  isVarName name ->
  expandVarRegex (String c t) = Some [String c t; EmptyString; "$"; EmptyString; name] ->
  expandCallback m (String c t) = mapGet m name.
Proof.
  intros [Hne _] Hs. unfold expandCallback, regexp.FindStringSubmatch.
  cbn [regexp.find_from]. rewrite Hs. cbn [regexp.group nth].
  change (String.eqb EmptyString (str1 BACKSLASH)) with false.
  change (String.eqb "$" "(") with false. cbn [orb].
  destruct (String.eqb_spec name EmptyString); done.
Qed.

Lemma no_trigger pre c :
  hasByte "$" pre = false -> hasByte BACKSLASH pre = false ->
  In c (list_ascii_of_string pre) ->
  Ascii.eqb c BACKSLASH || Ascii.eqb c "$" = false.
Proof.
  intros H1 H2 Hin. apply hasByte_false in H1, H2. apply orb_false_iff.
  split; [destruct (Ascii.eqb_spec c BACKSLASH)|destruct (Ascii.eqb_spec c "$")];
    by subst.
Qed.

(** In [expandVariables], a reference [${NAME}], and a reference [$NAME]
    followed by nothing that continues the name or closes a brace, is
    replaced by the value the mapping passed in holds for [NAME], the
    empty string when the mapping has no such key; the text before it that
    has neither a dollar sign nor a backslash is copied, and the text after
    it is expanded in the same mapping. *)
Lemma expandVariables_reference (m : gmap string string) pre name post :
  hasByte "$" pre = false -> hasByte BACKSLASH pre = false ->
  isVarName name ->
  expandVariables (pre +:+ "${" +:+ name +:+ "}" +:+ post) m
    = pre +:+ mapGet m name +:+ expandVariables post m
  /\ (endsName post ->
      expandVariables (pre +:+ "$" +:+ name +:+ post) m
        = pre +:+ mapGet m name +:+ expandVariables post m)
  /\ (m !! name = None -> mapGet m name = EmptyString).
Proof.
  intros H1 H2 Hname. rewrite !expandVariables_unfold.
  assert (forall ref rest,
    expandVarRegex (String "$" (ref +:+ rest))
      = Some [String "$" ref; EmptyString; "$"; EmptyString; name] ->
    expandVarRegex (String "$" ref)
      = Some [String "$" ref; EmptyString; "$"; EmptyString; name] ->
    regexp.replaceAll_from expandVarRegex
        (fun sub => expandCallback m (regexp.whole sub)) 0 0
        (pre +:+ String "$" (ref +:+ rest))
    = pre +:+ mapGet m name +:+
      regexp.replaceAll_from expandVarRegex
        (fun sub => expandCallback m (regexp.whole sub)) 0 0 rest) as Hgen.
  { intros ref rest Hre Hself.
    rewrite (replaceAll_prefix _ _ (fun c => Ascii.eqb c BACKSLASH || Ascii.eqb c "$"));
      [|apply expandVarRegex_other|by intros ? ?; eapply no_trigger|by vm_compute].
    f_equal. rewrite (replaceAll_match _ _ _ _ _ Hre).
    cbn [regexp.whole hd String.length Nat.sub]. rewrite Nat.sub_0_r, slice_from_length.
    f_equal. by apply expandCallback_name. }
  split; [|split].
  - assert (String "{" (name +:+ String "}" post) = ("{" +:+ name +:+ "}") +:+ post) as E.
    { rewrite !str_app_cons. f_equal. by rewrite str_app_nil_l, str_app_assoc. }
    change (pre +:+ "${" +:+ name +:+ "}" +:+ post)
      with (pre +:+ String "$" (String "{" (name +:+ String "}" post))).
    rewrite E. apply (Hgen ("{" +:+ name +:+ "}") post).
    + rewrite <- E. by apply expandVarRegex_braced.
    + apply (expandVarRegex_braced name EmptyString Hname).
  - intros Hpost.
    change (pre +:+ "$" +:+ name +:+ post) with (pre +:+ String "$" (name +:+ post)).
    apply (Hgen name post).
    + by apply expandVarRegex_bare.
    + rewrite <- (str_app_nil_r name) at 1. by apply expandVarRegex_bare.
  - intros Hm. unfold mapGet. by rewrite Hm.
Qed.

Example expandVariables_reference_hello :
  expandVariables "x=${A} world" {[ "A" := "hello" ]} = "x=hello world".
Proof.
  destruct (expandVariables_reference {[ "A" := "hello" ]} "x=" "A" " world") as [H _].
  - reflexivity.
  - reflexivity.
  - split; [intros E; discriminate E|reflexivity].
  - etransitivity; [exact H|]. vm_compute. reflexivity.
Qed.

(** The mapping [readFile] passes is the map of the file as built so far:
    a key of an earlier line is found, a key of a later line is not. *)
Example parse_context_same_file :
  parse ("A=hello" +:+ NL +:+ "B=${A} world" +:+ NL +:+ "C=$LATER" +:+ NL +:+ "LATER=x")
    = ({[ "A" := "hello"; "B" := "hello world"; "C" := EmptyString; "LATER" := "x" ]}, None).
Proof. vm_compute. reflexivity. Qed.

(** Neither the process environment nor an earlier layer is looked at:
    [A] is set in the environment and in the base file, and the reference
    to it in the local file expands to nothing. *)
Example LoadEnv_context_same_file :
  let fs : os.fileSystem := fun f =>
    if String.eqb f ".env" then os.Contents "A=base"
    else if String.eqb f ".env.local" then os.Contents "B=<$A>"
    else os.NotExist in
  environ (snd (LoadEnv fs [".env"] (mkWorld {[ "A" := "fromenv" ]} []))) !! "B"
    = Some "<>".
Proof. vm_compute. reflexivity. Qed.

(** ** The scanner *)

Lemma step_DecodeRune s : s <> EmptyString -> regexp.step s = utf8.DecodeRune s.
Proof.
  intros Hs. destruct s as [|c t]; [done|]. unfold regexp.step, utf8.DecodeRune.
  rewrite byte_at_0. cbn [String.length].
  change (S (String.length t) <? 1)%nat with false. cbv iota.
  unfold utf8.RuneSelf, utf8.first.
  destruct (N_of_ascii c <? 128)%N eqn:E; [|reflexivity].
  reflexivity.
Qed.

(** The runes [unicode.IsSpace] accepts. *)
Definition spaceRunes : list N :=
  [0x09; 0x0A; 0x0B; 0x0C; 0x0D; 0x20; 0x85; 0xA0; 0x1680;
   0x2000; 0x2001; 0x2002; 0x2003; 0x2004; 0x2005; 0x2006; 0x2007; 0x2008;
   0x2009; 0x200A; 0x2028; 0x2029; 0x202F; 0x205F; 0x3000]%N.

Lemma IsSpace_cases r : unicode.IsSpace r = true -> In r spaceRunes.
Proof.
  unfold unicode.IsSpace, unicode.MaxLatin1, spaceRunes.
  destruct (r <=? 255)%N.
  - rewrite !orb_true_iff, !N.eqb_eq. cbn [In]. intuition auto 30.
  - rewrite !orb_true_iff, !andb_true_iff, !N.eqb_eq, !N.leb_le. cbn [In].
    intros H.
    assert (r = 0x1680 \/ r = 0x2000 \/ r = 0x2001 \/ r = 0x2002 \/ r = 0x2003
            \/ r = 0x2004 \/ r = 0x2005 \/ r = 0x2006 \/ r = 0x2007 \/ r = 0x2008
            \/ r = 0x2009 \/ r = 0x200A \/ r = 0x2028 \/ r = 0x2029 \/ r = 0x202F
            \/ r = 0x205F \/ r = 0x3000)%N as H' by lia.
    intuition auto 30.
Qed.

(** Decoding the encoding of a white space rune gives the rune back. *)
Lemma step_space r tail :
  unicode.IsSpace r = true ->
  regexp.step (utf8.EncodeRune r +:+ tail) = (r, String.length (utf8.EncodeRune r))
  /\ (1 <= String.length (utf8.EncodeRune r))%nat.
Proof.
  intros H%IsSpace_cases. unfold spaceRunes in H. cbn [In] in H.
  repeat (destruct H as [<-|H]; [split; [vm_compute; reflexivity|vm_compute; lia]|]).
  destruct H.
Qed.

Section IndexFunc.
Variable f : N -> bool.
Variable truth : bool.

Lemma indexFunc_skip k start s :
  bytes.indexFunc_from f truth k start s
    = bytes.indexFunc_from f truth 0 (start + k) (slice_from s k).
Proof.
  revert start s. induction k as [|k IH]; intros start s.
  - by rewrite Nat.add_0_r.
  - destruct s as [|c t]; [done|]. cbn [bytes.indexFunc_from slice_from].
    rewrite IH. f_equal. lia.
Qed.

(** One round of the loop of [indexFunc]. *)
Lemma indexFunc_head start s :
  s <> EmptyString ->
  bytes.indexFunc_from f truth 0 start s
    = if Bool.eqb (f (fst (regexp.step s))) truth then Some start
      else bytes.indexFunc_from f truth 0 (start + snd (regexp.step s))
             (slice_from s (snd (regexp.step s))).
Proof.
  intros Hs. destruct (step_width s Hs) as [Hw _].
  destruct s as [|c t]; [done|]. cbn [bytes.indexFunc_from].
  change (if (N_of_ascii c <? utf8.RuneSelf)%N then (N_of_ascii c, 1%nat)
          else utf8.DecodeRune (String c t)) with (regexp.step (String c t)).
  destruct (regexp.step (String c t)) as [r wid]. cbn [fst snd] in *.
  destruct (Bool.eqb (f r) truth); [done|].
  rewrite indexFunc_skip. destruct wid as [|wid]; [lia|].
  cbn [slice_from Nat.sub]. rewrite Nat.sub_0_r. f_equal. lia.
Qed.

End IndexFunc.

Lemma indexOfNonSpaceChar_spaces rs rest start :
  Forall (fun r => unicode.IsSpace r = true) rs ->
  bytes.indexFunc_from (fun r => negb (unicode.IsSpace r)) true 0 start
      (utf8.encode rs +:+ rest)
    = bytes.indexFunc_from (fun r => negb (unicode.IsSpace r)) true 0
        (start + String.length (utf8.encode rs)) rest.
Proof.
  intros Hrs. revert start. induction Hrs as [|r rs Hr _ IH]; intros start.
  - cbn [utf8.encode String.length]. by rewrite str_app_nil_l, Nat.add_0_r.
  - cbn [utf8.encode]. rewrite str_app_assoc.
    destruct (step_space r (utf8.encode rs +:+ rest) Hr) as [Hstep Hlen].
    rewrite indexFunc_head.
    + rewrite Hstep. cbn [fst snd]. rewrite Hr. cbn [negb Bool.eqb].
      rewrite slice_from_length, IH. f_equal. rewrite str_length_app. lia.
    + destruct (utf8.EncodeRune r); [cbn in Hlen; lia|done].
Qed.

(** C6, as amended.  [getStatementStart] skips leading white space as
    [unicode.IsSpace] sees it on the runes decoded from the input: the
    Unicode white space set, which has the newline and, above Latin-1,
    runes such as U+3000, besides the seven runes of the fixed set of
    [isSpace].  The first rune that is not such white space, when it is
    not the comment marker, starts the next statement. *)
Theorem getStatementStart_skips_unicode_space rs rest :
  Forall (fun r => unicode.IsSpace r = true) rs ->
  rest <> EmptyString ->
  unicode.IsSpace (fst (utf8.DecodeRune rest)) = false ->
  byte_at rest 0 <> N_of_ascii charComment ->
  getStatementStart (utf8.encode rs +:+ rest) = Some rest
  /\ (forall r, isSpace r = true -> unicode.IsSpace r = true)
  /\ isSpace 0x0A = false /\ isSpace 0x3000 = false.
Proof.
  intros Hrs Hne Hsp Hc. split; [|split; [|by vm_compute]].
  - unfold getStatementStart. cbn [getStatementStart_fuel].
    unfold indexOfNonSpaceChar, bytes.IndexFunc, bytes.indexFunc.
    rewrite indexOfNonSpaceChar_spaces by done.
    rewrite indexFunc_head, step_DecodeRune, Hsp by done. cbn [negb Bool.eqb Nat.add].
    rewrite slice_from_length.
    apply N.eqb_neq in Hc. by rewrite Hc.
  - intros r. unfold isSpace, slices.Contains. intros H%bool_decide_eq_true.
    rewrite !elem_of_cons, elem_of_nil in H.
    destruct H as [->|[->|[->|[->|[->|[->|[->|[]]]]]]]]; reflexivity.
Qed.

Lemma getStatementStart_skips_unicode_space_witness :
  getStatementStart (utf8.encode [0x20; 0x0A; 0x3000; 0x09]%N +:+ "A=1") = Some "A=1".
Proof.
  apply (getStatementStart_skips_unicode_space [0x20; 0x0A; 0x3000; 0x09]%N "A=1").
  - repeat constructor.
  - intros E; discriminate E.
  - reflexivity.
  - intros E; discriminate E.
Defined.

(** ** Decoded runes *)

Lemma lor_ge_l a b : (a <= N.lor a b)%N.
Proof.
  apply N.ldiff_le. apply N.bits_inj. intros n.
  rewrite N.ldiff_spec, N.lor_spec, N.bits_0. by destruct (N.testbit a n), (N.testbit b n).
Qed.

Lemma lor_ge_r a b : (b <= N.lor a b)%N.
Proof. rewrite N.lor_comm. apply lor_ge_l. Qed.

Lemma land_low_ge (b lo hi k base : N) :
  (lo <= b <= hi)%N -> (base * 2 ^ k <= lo)%N -> (hi < (base + 1) * 2 ^ k)%N ->
  (lo - base * 2 ^ k <= N.land b (N.ones k))%N.
Proof.
  intros Hb Hlo Hhi. rewrite N.land_ones.
  assert (b / 2 ^ k = base)%N as Hq.
  { symmetry. apply (N.div_unique b (2 ^ k) base (b - base * 2 ^ k)); [lia|lia]. }
  pose proof (N.div_mod b (2 ^ k)) as Hdm. rewrite Hq in Hdm.
  assert (2 ^ k <> 0)%N as Hne by (apply N.pow_nonzero; lia).
  specialize (Hdm Hne). lia.
Qed.

Lemma shiftl_ge a k m : (m <= a)%N -> (m * 2 ^ k <= N.shiftl a k)%N.
Proof. intros H. rewrite N.shiftl_mul_pow2. by apply N.mul_le_mono_r. Qed.

Lemma first_cases p0 :
  (utf8.first p0 <? utf8.as_)%N = true ->
  (utf8.first p0 = utf8.s1 /\ 0xC2 <= p0 <= 0xDF)%N
  \/ (utf8.first p0 = utf8.s2 /\ p0 = 0xE0)%N
  \/ (utf8.first p0 = utf8.s3 /\ 0xE1 <= p0 <= 0xEF)%N
  \/ (utf8.first p0 = utf8.s4 /\ p0 = 0xED)%N
  \/ (utf8.first p0 = utf8.s5 /\ p0 = 0xF0)%N
  \/ (utf8.first p0 = utf8.s6 /\ 0xF1 <= p0 <= 0xF3)%N
  \/ (utf8.first p0 = utf8.s7 /\ p0 = 0xF4)%N.
Proof.
  unfold utf8.first.
  destruct (N.ltb_spec p0 0x80); [discriminate|].
  destruct (N.ltb_spec p0 0xC2); [discriminate|].
  destruct (N.ltb_spec p0 0xE0); [intros _; left; split; [done|lia]|].
  destruct (N.eqb_spec p0 0xE0); [intros _; right; left; done|].
  destruct (N.ltb_spec p0 0xED); [intros _; right; right; left; split; [done|lia]|].
  destruct (N.eqb_spec p0 0xED); [intros _; do 3 right; left; done|].
  destruct (N.ltb_spec p0 0xF0); [intros _; right; right; left; split; [done|lia]|].
  destruct (N.eqb_spec p0 0xF0); [intros _; do 4 right; left; done|].
  destruct (N.ltb_spec p0 0xF4); [intros _; do 5 right; left; split; [done|lia]|].
  destruct (N.eqb_spec p0 0xF4); [intros _; do 6 right; done|].
  discriminate.
Qed.

(** A rune decoded from a byte that is not ASCII is not ASCII: the decoder
    refuses the encodings that are longer than needed. *)
Lemma DecodeRune_nonascii c t :
  (0x80 <= N_of_ascii c)%N -> (0x80 <= fst (utf8.DecodeRune (String c t)))%N.
Proof.
  intros Hc. unfold utf8.DecodeRune. cbn [String.length].
  change (S (String.length t) <? 1)%nat with false. cbv iota.
  rewrite byte_at_0. set (p := String c t). set (p0 := N_of_ascii c) in *.
  set (n := S (String.length t)).
  destruct (utf8.as_ <=? utf8.first p0)%N eqn:Eas; cbn [fst].
  { destruct (N.testbit (utf8.first p0) 0); [by vm_compute|done]. }
  assert ((utf8.first p0 <? utf8.as_)%N = true) as Hlt.
  { apply N.ltb_lt. apply N.leb_gt in Eas. done. }
  assert (forall v : N * nat, fst v = utf8.RuneError -> (0x80 <= fst v)%N) as Herr.
  { intros v ->. by vm_compute. }
  assert (mask2 : utf8.mask2 = N.ones 5) by reflexivity.
  assert (mask3 : utf8.mask3 = N.ones 4) by reflexivity.
  assert (mask4 : utf8.mask4 = N.ones 3) by reflexivity.
  assert (maskx : utf8.maskx = N.ones 6) by reflexivity.
  set (b1 := byte_at p 1). set (b2 := byte_at p 2). set (b3 := byte_at p 3).
  destruct (first_cases p0 Hlt) as [[-> Hp]|[[-> Hp]|[[-> Hp]|[[-> Hp]|[[-> Hp]|[[-> Hp]|[-> Hp]]]]]]].
  - change (N.to_nat (N.land utf8.s1 7)) with 2%nat.
    change (utf8.acceptRanges (N.shiftr utf8.s1 4)) with (0x80, 0xBF)%N. cbn [fst snd].
    destruct (n <? 2)%nat; [by apply Herr|].
    destruct ((b1 <? 128) || (191 <? b1))%N; [by apply Herr|].
    change (2 <=? 2)%nat with true. cbn [fst].
    etransitivity; [|apply lor_ge_l]. rewrite mask2.
    change 128%N with (2 * 2 ^ 6)%N. apply shiftl_ge.
    by apply (land_low_ge p0 0xC2 0xDF 5 6).
  - change (N.to_nat (N.land utf8.s2 7)) with 3%nat.
    change (utf8.acceptRanges (N.shiftr utf8.s2 4)) with (0xA0, 0xBF)%N. cbn [fst snd].
    destruct (n <? 3)%nat; [by apply Herr|].
    destruct ((b1 <? 160) || (191 <? b1))%N eqn:E1; [by apply Herr|].
    apply orb_false_iff in E1 as [?%N.ltb_ge ?%N.ltb_ge].
    change (3 <=? 2)%nat with false. cbv iota.
    destruct ((b2 <? utf8.locb) || (utf8.hicb <? b2))%N; [by apply Herr|].
    change (3 <=? 3)%nat with true. cbn [fst].
    etransitivity; [|apply lor_ge_l]. etransitivity; [|apply lor_ge_r]. rewrite maskx.
    etransitivity; [|apply (shiftl_ge _ 6 32)]; [by vm_compute|].
    by apply (land_low_ge b1 0xA0 0xBF 6 2).
  - change (N.to_nat (N.land utf8.s3 7)) with 3%nat.
    change (utf8.acceptRanges (N.shiftr utf8.s3 4)) with (0x80, 0xBF)%N. cbn [fst snd].
    destruct (n <? 3)%nat; [by apply Herr|].
    destruct ((b1 <? 128) || (191 <? b1))%N; [by apply Herr|].
    change (3 <=? 2)%nat with false. cbv iota.
    destruct ((b2 <? utf8.locb) || (utf8.hicb <? b2))%N; [by apply Herr|].
    change (3 <=? 3)%nat with true. cbn [fst].
    etransitivity; [|apply lor_ge_l]. etransitivity; [|apply lor_ge_l]. rewrite mask3.
    etransitivity; [|apply (shiftl_ge _ 12 1)]; [by vm_compute|].
    by apply (land_low_ge p0 0xE1 0xEF 4 14).
  - change (N.to_nat (N.land utf8.s4 7)) with 3%nat.
    change (utf8.acceptRanges (N.shiftr utf8.s4 4)) with (0x80, 0x9F)%N. cbn [fst snd].
    destruct (n <? 3)%nat; [by apply Herr|].
    destruct ((b1 <? 128) || (159 <? b1))%N; [by apply Herr|].
    change (3 <=? 2)%nat with false. cbv iota.
    destruct ((b2 <? utf8.locb) || (utf8.hicb <? b2))%N; [by apply Herr|].
    change (3 <=? 3)%nat with true. cbn [fst].
    etransitivity; [|apply lor_ge_l]. etransitivity; [|apply lor_ge_l]. rewrite mask3.
    etransitivity; [|apply (shiftl_ge _ 12 1)]; [by vm_compute|].
    etransitivity; [|apply (land_low_ge p0 0xED 0xED 4 14); lia]. by vm_compute.
  - change (N.to_nat (N.land utf8.s5 7)) with 4%nat.
    change (utf8.acceptRanges (N.shiftr utf8.s5 4)) with (0x90, 0xBF)%N. cbn [fst snd].
    destruct (n <? 4)%nat; [by apply Herr|].
    destruct ((b1 <? 144) || (191 <? b1))%N eqn:E1; [by apply Herr|].
    apply orb_false_iff in E1 as [?%N.ltb_ge ?%N.ltb_ge].
    change (4 <=? 2)%nat with false. cbv iota.
    destruct ((b2 <? utf8.locb) || (utf8.hicb <? b2))%N; [by apply Herr|].
    change (4 <=? 3)%nat with false. cbv iota.
    destruct ((b3 <? utf8.locb) || (utf8.hicb <? b3))%N; [by apply Herr|].
    cbn [fst].
    etransitivity; [|apply lor_ge_l]. etransitivity; [|apply lor_ge_l].
    etransitivity; [|apply lor_ge_r]. rewrite maskx.
    etransitivity; [|apply (shiftl_ge _ 12 16)]; [by vm_compute|].
    by apply (land_low_ge b1 0x90 0xBF 6 2).
  - change (N.to_nat (N.land utf8.s6 7)) with 4%nat.
    change (utf8.acceptRanges (N.shiftr utf8.s6 4)) with (0x80, 0xBF)%N. cbn [fst snd].
    destruct (n <? 4)%nat; [by apply Herr|].
    destruct ((b1 <? 128) || (191 <? b1))%N; [by apply Herr|].
    change (4 <=? 2)%nat with false. cbv iota.
    destruct ((b2 <? utf8.locb) || (utf8.hicb <? b2))%N; [by apply Herr|].
    change (4 <=? 3)%nat with false. cbv iota.
    destruct ((b3 <? utf8.locb) || (utf8.hicb <? b3))%N; [by apply Herr|].
    cbn [fst].
    etransitivity; [|apply lor_ge_l]. etransitivity; [|apply lor_ge_l].
    etransitivity; [|apply lor_ge_l]. rewrite mask4.
    etransitivity; [|apply (shiftl_ge _ 18 1)]; [by vm_compute|].
    by apply (land_low_ge p0 0xF1 0xF3 3 30).
  - change (N.to_nat (N.land utf8.s7 7)) with 4%nat.
    change (utf8.acceptRanges (N.shiftr utf8.s7 4)) with (0x80, 0x8F)%N. cbn [fst snd].
    destruct (n <? 4)%nat; [by apply Herr|].
    destruct ((b1 <? 128) || (143 <? b1))%N; [by apply Herr|].
    change (4 <=? 2)%nat with false. cbv iota.
    destruct ((b2 <? utf8.locb) || (utf8.hicb <? b2))%N; [by apply Herr|].
    change (4 <=? 3)%nat with false. cbv iota.
    destruct ((b3 <? utf8.locb) || (utf8.hicb <? b3))%N; [by apply Herr|].
    cbn [fst].
    etransitivity; [|apply lor_ge_l]. etransitivity; [|apply lor_ge_l].
    etransitivity; [|apply lor_ge_l]. rewrite mask4.
    etransitivity; [|apply (shiftl_ge _ 18 1)]; [by vm_compute|].
    etransitivity; [|apply (land_low_ge p0 0xF4 0xF4 3 30); lia]. by vm_compute.
Qed.

(** ** Searching a rune *)

Lemma slice_from_from s a b : slice_from (slice_from s a) b = slice_from s (a + b).
Proof.
  revert s. induction a as [|a IH]; intros s; [done|].
  destruct s as [|c s]; [by rewrite slice_from_nil|]. cbn [slice_from Nat.add]. apply IH.
Qed.

Lemma slice_from_ge s n : (String.length s <= n)%nat -> slice_from s n = EmptyString.
Proof.
  revert s. induction n as [|n IH]; intros s Hn.
  - destruct s; [done|cbn in Hn; lia].
  - destruct s as [|c s]; [done|]. cbn in *. apply IH. lia.
Qed.

Lemma step_rune c t :
  (N_of_ascii c < 0x80 /\ fst (regexp.step (String c t)) = N_of_ascii c)%N
  \/ (0x80 <= N_of_ascii c /\ 0x80 <= fst (regexp.step (String c t)))%N.
Proof.
  destruct (N.ltb_spec (N_of_ascii c) 0x80) as [H|H].
  - left. by rewrite step_ascii.
  - right. split; [done|]. rewrite step_DecodeRune by done. by apply DecodeRune_nonascii.
Qed.

Section IndexFuncFacts.
Variable f : N -> bool.
Variable truth : bool.

(** An index returned is inside the slice, and the rune there is one the
    search was for. *)
Lemma indexFunc_Some start s i :
  bytes.indexFunc_from f truth 0 start s = Some i ->
  (start <= i < start + String.length s)%nat
  /\ Bool.eqb (f (fst (regexp.step (slice_from s (i - start))))) truth = true.
Proof.
  remember (String.length s) as n eqn:Hn. revert s start Hn.
  induction n as [n IH] using lt_wf_ind. intros s start Hn Hi.
  destruct s as [|c t]; [done|].
  rewrite indexFunc_head in Hi by done.
  destruct (Bool.eqb (f (fst (regexp.step (String c t)))) truth) eqn:E.
  - injection Hi as <-. rewrite Nat.sub_diag. cbn in Hn. split; [lia|done].
  - destruct (step_width (String c t)) as [Hw _]; [done|].
    set (w := snd (regexp.step (String c t))) in *.
    apply (IH (String.length (slice_from (String c t) w))) in Hi;
      [|rewrite length_slice_from; cbn [String.length] in *; lia|done].
    rewrite length_slice_from, slice_from_from in Hi. destruct Hi as [Hr Hf].
    cbn [String.length] in *. split; [lia|]. replace (w + (i - (start + w)))%nat with (i - start)%nat in Hf by lia. done.
Qed.

Lemma indexFunc_shift start s :
  bytes.indexFunc_from f truth 0 (S start) s
    = S <$> bytes.indexFunc_from f truth 0 start s.
Proof.
  remember (String.length s) as n eqn:Hn. revert s start Hn.
  induction n as [n IH] using lt_wf_ind. intros s start Hn.
  destruct s as [|c t]; [done|].
  rewrite (indexFunc_head f truth (S start)), (indexFunc_head f truth start) by done.
  destruct (Bool.eqb (f (fst (regexp.step (String c t)))) truth); [reflexivity|].
  destruct (step_width (String c t)) as [Hw _]; [done|].
  apply (IH (String.length (slice_from (String c t) (snd (regexp.step (String c t))))));
    [rewrite length_slice_from; cbn [String.length] in *; lia|done].
Qed.

(** Where only ASCII runes are searched for: over a prefix that has none
    of them the search goes on after the prefix. *)
Lemma indexFunc_prefix pre rest start :
  (forall r, (0x80 <= r)%N -> Bool.eqb (f r) truth = false) ->
  (forall c, In c (list_ascii_of_string pre) -> Bool.eqb (f (N_of_ascii c)) truth = false) ->
  asciiHead rest ->
  bytes.indexFunc_from f truth 0 start (pre +:+ rest)
    = bytes.indexFunc_from f truth 0 (start + String.length pre) rest.
Proof.
  intros Hhigh. remember (String.length pre) as n eqn:Hn.
  revert pre start Hn. induction n as [n IH] using lt_wf_ind. intros pre start Hn Hpre Hrest.
  destruct pre as [|c pre']; [subst n; by rewrite str_app_nil_l, Nat.add_0_r|].
  pose proof (step_within (String c pre') rest ltac:(done) Hrest) as [Hw1 Hw2].
  rewrite indexFunc_head by done.
  assert (Bool.eqb (f (fst (regexp.step (String c pre' +:+ rest)))) truth = false) as ->.
  { rewrite str_app_cons. destruct (step_rune c (pre' +:+ rest)) as [[_ ->]|[_ H]].
    - apply Hpre. cbn. auto.
    - by apply Hhigh. }
  set (w := snd (regexp.step (String c pre' +:+ rest))) in *.
  rewrite slice_from_app by done.
  rewrite (IH (String.length (slice_from (String c pre') w))); try done.
  - rewrite length_slice_from. f_equal. subst n. cbn [String.length] in *. lia.
  - subst n. rewrite length_slice_from. cbn [String.length] in *. lia.
  - intros d Hd. apply Hpre. by eapply list_ascii_of_string_slice_from.
Qed.

End IndexFuncFacts.

(** The first occurrence of an ASCII byte. *)
Lemma IndexFunc_byte c pre rest :
  (N_of_ascii c < 0x80)%N -> hasByte c pre = false ->
  bytes.IndexFunc (pre +:+ String c rest) (isCharFunc (N_of_ascii c))
    = Some (String.length pre).
Proof.
  intros Hc Hpre. unfold bytes.IndexFunc, bytes.indexFunc.
  rewrite indexFunc_prefix.
  - rewrite indexFunc_head, step_ascii by done. cbn [fst]. unfold isCharFunc.
    by rewrite N.eqb_refl.
  - intros r Hr. unfold isCharFunc. destruct (N.eqb_spec r (N_of_ascii c)); [lia|done].
  - intros d Hd. unfold isCharFunc. destruct (N.eqb_spec (N_of_ascii d) (N_of_ascii c)) as [E|]; [|done].
    apply hasByte_false in Hpre. destruct Hpre.
    rewrite <- (ascii_N_embedding c), <- E, ascii_N_embedding. done.
  - done.
Qed.

Lemma IndexFunc_byte_none c s :
  (N_of_ascii c < 0x80)%N -> hasByte c s = false ->
  bytes.IndexFunc s (isCharFunc (N_of_ascii c)) = None.
Proof.
  intros Hc Hs. unfold bytes.IndexFunc, bytes.indexFunc.
  rewrite <- (str_app_nil_r s), indexFunc_prefix; [done| | |done].
  - intros r Hr. unfold isCharFunc. destruct (N.eqb_spec r (N_of_ascii c)); [lia|done].
  - intros d Hd. unfold isCharFunc. destruct (N.eqb_spec (N_of_ascii d) (N_of_ascii c)) as [E|]; [|done].
    apply hasByte_false in Hs. destruct Hs.
    rewrite <- (ascii_N_embedding c), <- E, ascii_N_embedding. done.
Qed.

(** ** The scanner: what it returns *)

(** After a comment marker the newline searched for is further on. *)
Lemma comment_newline_pos c t pos :
  c = charComment ->
  bytes.IndexFunc (String c t) (isCharFunc 10) = Some pos ->
  (1 <= pos < String.length (String c t))%nat.
Proof.
  intros -> H. unfold bytes.IndexFunc, bytes.indexFunc in H.
  apply indexFunc_Some in H as [Hr Hf]. split; [|lia].
  destruct pos; [|lia]. cbn [Nat.sub slice_from] in Hf.
  rewrite step_ascii in Hf by (by vm_compute). by vm_compute in Hf.
Qed.

Lemma indexOfNonSpaceChar_Some src pos :
  indexOfNonSpaceChar src = Some pos ->
  (pos < String.length src)%nat
  /\ slice_from src pos <> EmptyString
  /\ unicode.IsSpace (fst (utf8.DecodeRune (slice_from src pos))) = false.
Proof.
  unfold indexOfNonSpaceChar, bytes.IndexFunc, bytes.indexFunc. intros H.
  apply indexFunc_Some in H as [Hr Hf]. rewrite Nat.sub_0_r in Hf.
  assert (slice_from src pos <> EmptyString) as Hne.
  { intros E. pose proof (length_slice_from src pos) as Hl. rewrite E in Hl. cbn in Hl. lia. }
  split; [lia|]. split; [done|]. rewrite step_DecodeRune in Hf by done.
  by destruct (unicode.IsSpace _).
Qed.

(** The number of calls of [getStatementStart] is bounded by the length of
    the input: more fuel than that changes nothing. *)
Lemma getStatementStart_fuel_enough n m src :
  (String.length src < n)%nat -> (String.length src < m)%nat ->
  getStatementStart_fuel n src = getStatementStart_fuel m src.
Proof.
  revert m src. induction n as [|n IH]; intros m src Hn Hm; [lia|].
  destruct m as [|m]; [lia|]. cbn [getStatementStart_fuel].
  destruct (indexOfNonSpaceChar src) as [pos|] eqn:Epos; [|done].
  apply indexOfNonSpaceChar_Some in Epos as (Hpos & Hne & _).
  destruct (slice_from src pos) as [|c t] eqn:Es; [done|].
  rewrite byte_at_0.
  destruct (N.eqb_spec (N_of_ascii c) (N_of_ascii charComment)) as [E|E]; [|done].
  cbn [negb]. destruct (bytes.IndexFunc (String c t) (isCharFunc 10)) as [pos'|] eqn:Epos'; [|done].
  apply comment_newline_pos in Epos'.
  2:{ rewrite <- (ascii_N_embedding c), E. reflexivity. }
  pose proof (length_slice_from src pos) as Hl. rewrite Es in Hl.
  apply IH; rewrite length_slice_from; lia.
Qed.

(** X1.  What [getStatementStart] returns is a non-empty rest of its
    input, the first rune of which is neither white space nor the comment
    marker. *)
Theorem getStatementStart_result src st :
  getStatementStart src = Some st ->
  (exists i, (i < String.length src)%nat /\ st = slice_from src i)
  /\ st <> EmptyString
  /\ byte_at st 0 <> N_of_ascii charComment
  /\ unicode.IsSpace (fst (utf8.DecodeRune st)) = false.
Proof.
  unfold getStatementStart. generalize (S (String.length src)) as fuel.
  intros fuel. revert src. induction fuel as [|fuel IH]; intros src H; [done|].
  cbn [getStatementStart_fuel] in H.
  destruct (indexOfNonSpaceChar src) as [pos|] eqn:Epos; [|done].
  apply indexOfNonSpaceChar_Some in Epos as (Hpos & Hne & Hsp).
  destruct (N.eqb_spec (byte_at (slice_from src pos) 0) (N_of_ascii charComment)) as [E|E].
  - cbn [negb] in H.
    destruct (bytes.IndexFunc (slice_from src pos) (isCharFunc 10)) as [pos'|] eqn:Epos'; [|done].
    apply IH in H as ((i & Hi & ->) & H2). split; [|done].
    rewrite !slice_from_from in *. rewrite length_slice_from in Hi.
    exists (pos + pos' + i)%nat. split; [lia|]. f_equal. lia.
  - cbn [negb] in H. injection H as <-. split; [by exists pos|]. done.
Qed.

Lemma getStatementStart_result_witness :
  (exists i, (i < String.length ("  # note" +:+ NL +:+ "KEY=1"))%nat
             /\ "KEY=1" = slice_from ("  # note" +:+ NL +:+ "KEY=1") i)
  /\ "KEY=1" <> EmptyString
  /\ byte_at "KEY=1" 0 <> N_of_ascii charComment
  /\ unicode.IsSpace (fst (utf8.DecodeRune "KEY=1")) = false.
Proof.
  apply (getStatementStart_result ("  # note" +:+ NL +:+ "KEY=1") "KEY=1").
  vm_compute. reflexivity.
Defined.

Lemma indexFunc_add f truth a s :
  bytes.indexFunc_from f truth 0 a s
    = Nat.add a <$> bytes.indexFunc_from f truth 0 0 s.
Proof.
  induction a as [|a IH].
  - by destruct (bytes.indexFunc_from f truth 0 0 s).
  - rewrite indexFunc_shift, IH. by destruct (bytes.indexFunc_from f truth 0 0 s).
Qed.

Lemma slice_from_app_r s t k :
  slice_from (s +:+ t) (String.length s + k) = slice_from t k.
Proof. by rewrite <- slice_from_from, slice_from_length. Qed.

Lemma getStatementStart_fuel_spaces rs rest n m :
  Forall (fun r => unicode.IsSpace r = true) rs ->
  (String.length (utf8.encode rs +:+ rest) < n)%nat -> (String.length rest < m)%nat ->
  getStatementStart_fuel n (utf8.encode rs +:+ rest) = getStatementStart_fuel m rest.
Proof.
  intros Hrs Hn Hm. destruct n as [|n]; [lia|]. destruct m as [|m]; [lia|].
  cbn [getStatementStart_fuel].
  unfold indexOfNonSpaceChar, bytes.IndexFunc, bytes.indexFunc.
  rewrite indexOfNonSpaceChar_spaces by done. cbn [Nat.add]. rewrite indexFunc_add.
  destruct (bytes.indexFunc_from _ true 0 0 rest) as [pos|] eqn:Epos; [|done].
  cbn [fmap option_fmap option_map].
  rewrite slice_from_app_r.
  apply indexFunc_Some in Epos as [Hpos _].
  destruct (slice_from rest pos) as [|c t] eqn:Es.
  { pose proof (length_slice_from rest pos) as Hl. rewrite Es in Hl. cbn in Hl. lia. }
  rewrite byte_at_0.
  destruct (N.eqb_spec (N_of_ascii c) (N_of_ascii charComment)) as [E|E]; [|reflexivity].
  cbn [negb].
  destruct (bytes.indexFunc_from (isCharFunc 10) true 0 0 (String c t))
    as [pos'|] eqn:Epos'; [|done].
  apply (comment_newline_pos c t pos') in Epos'.
  2:{ rewrite <- (ascii_N_embedding c), E. reflexivity. }
  pose proof (length_slice_from rest pos) as Hl. rewrite Es in Hl.
  rewrite str_length_app in Hn.
  apply getStatementStart_fuel_enough; rewrite length_slice_from; lia.
Qed.

(** X2.  Leading white space, and a comment up to and including the end
    of its line, do not change what [getStatementStart] finds; a comment on
    the last line, without a newline, ends the scan. *)
Theorem getStatementStart_skips rs text rest :
  Forall (fun r => unicode.IsSpace r = true) rs ->
  hasByte LF text = false ->
  getStatementStart (utf8.encode rs +:+ rest) = getStatementStart rest
  /\ getStatementStart ("#" +:+ text +:+ NL +:+ rest) = getStatementStart rest
  /\ getStatementStart ("#" +:+ text) = None.
Proof.
  intros Hrs Htext.
  assert (hasByte LF ("#" +:+ text) = false) as Hpre.
  { apply hasByte_false. intros [E|Hin]; [discriminate E|]. by apply hasByte_false in Htext. }
  split; [|split].
  - unfold getStatementStart. apply getStatementStart_fuel_spaces; [done|lia|lia].
  - unfold getStatementStart at 1. cbn [getStatementStart_fuel].
    change (indexOfNonSpaceChar ("#" +:+ text +:+ NL +:+ rest)) with (Some 0%nat).
    cbn [slice_from]. change (negb _) with false. cbv iota.
    change ("#" +:+ text +:+ NL +:+ rest) with (("#" +:+ text) +:+ String LF rest).
    rewrite (IndexFunc_byte LF) by (done || by vm_compute).
    rewrite slice_from_length.
    unfold getStatementStart.
    apply (getStatementStart_fuel_spaces [10%N] rest); [by repeat constructor| |lia].
    change (utf8.encode [10%N] +:+ rest) with (String LF rest).
    rewrite !str_length_app. cbn [String.length]. lia.
  - unfold getStatementStart. cbn [getStatementStart_fuel].
    change (indexOfNonSpaceChar ("#" +:+ text)) with (Some 0%nat).
    cbn [slice_from]. change (negb _) with false. cbv iota.
    by rewrite (IndexFunc_byte_none LF) by (done || by vm_compute).
Qed.

Lemma getStatementStart_skips_witness :
  getStatementStart ("# about" +:+ NL +:+ "  # more" +:+ NL +:+ "A=1") = Some "A=1".
Proof.
  destruct (getStatementStart_skips [] " about" ("  # more" +:+ NL +:+ "A=1"))
    as (_ & H1 & _); [constructor|reflexivity|].
  destruct (getStatementStart_skips [0x20; 0x20]%N " more" "A=1")
    as (H2 & H3 & _); [repeat constructor|reflexivity|].
  etransitivity; [exact H1|]. etransitivity; [exact H2|].
  etransitivity; [exact H3|]. vm_compute. reflexivity.
Defined.

(** ** The key lexer *)

(** The bytes the key loop passes over: what [isSpace] accepts, the
    underscore, the Latin-1 letters and numbers, the dot. *)
Definition keyByte (c : ascii) : bool :=
  isSpace (N_of_ascii c) || Ascii.eqb c "_"
  || unicode.IsLetter (N_of_ascii c) || unicode.IsNumber (N_of_ascii c)
  || (N_of_ascii c =? 46)%N.

Definition isSeparator (c : ascii) : bool := Ascii.eqb c "=" || Ascii.eqb c ":".

Lemma keyLoop_step i c t :
  keyLoop i (String c t) =
    if isSpace (N_of_ascii c) then keyLoop (S i) t
    else if isSeparator c then KeyEnd i
    else if keyByte c then keyLoop (S i) t
    else KeyBad c.
Proof.
  cbn [keyLoop]. unfold keyByte, isSeparator.
  destruct (isSpace (N_of_ascii c)); [done|]. cbn [orb].
  destruct (Ascii.eqb c "=" || Ascii.eqb c ":"); [done|].
  destruct (Ascii.eqb c "_"); [done|]. cbn [orb].
  by destruct (unicode.IsLetter (N_of_ascii c) || unicode.IsNumber (N_of_ascii c)
               || (N_of_ascii c =? 46)%N).
Qed.

Lemma isSpace_keyByte c : isSpace (N_of_ascii c) = true -> keyByte c = true.
Proof. intros H. unfold keyByte. by rewrite H. Qed.

Lemma keyLoop_KeyEnd s : forall i j,
  keyLoop i s = KeyEnd j ->
  (i <= j)%nat /\ (j - i < String.length s)%nat
  /\ (forall c, In c (list_ascii_of_string (slice_to s (j - i))) -> keyByte c = true)
  /\ (exists c t, slice_from s (j - i) = String c t /\ isSeparator c = true).
Proof.
  induction s as [|c t IH]; intros i j H; [done|].
  rewrite keyLoop_step in H.
  assert (keyLoop (S i) t = KeyEnd j -> keyByte c = true ->
          (i <= j)%nat /\ (j - i < String.length (String c t))%nat
          /\ (forall d, In d (list_ascii_of_string (slice_to (String c t) (j - i))) -> keyByte d = true)
          /\ (exists d u, slice_from (String c t) (j - i) = String d u /\ isSeparator d = true)) as Hrec.
  { intros Hk Hc. apply IH in Hk as (Hij & Hlen & Hall & Hsep).
    replace (j - i)%nat with (S (j - S i)) by lia. cbn [slice_to slice_from String.length].
    split; [lia|]. split; [lia|]. split; [|done].
    intros d [<-|Hd]; [done|]. by apply Hall. }
  destruct (isSpace (N_of_ascii c)) eqn:Esp; [by apply Hrec; [|apply isSpace_keyByte]|].
  destruct (isSeparator c) eqn:Esep.
  - injection H as <-. rewrite Nat.sub_diag. cbn. split; [lia|]. split; [lia|].
    split; [done|]. by exists c, t.
  - destruct (keyByte c) eqn:Ek; [by apply Hrec|done].
Qed.

Lemma keyLoop_KeyBad s : forall i c,
  keyLoop i s = KeyBad c ->
  In c (list_ascii_of_string s) /\ keyByte c = false /\ isSeparator c = false.
Proof.
  induction s as [|d t IH]; intros i c H; [done|].
  rewrite keyLoop_step in H.
  destruct (isSpace (N_of_ascii d)) eqn:Esp.
  { apply IH in H as (? & ? & ?). cbn. auto. }
  destruct (isSeparator d) eqn:Esep; [done|].
  destruct (keyByte d) eqn:Ek.
  - apply IH in H as (? & ? & ?). cbn. auto.
  - injection H as <-. cbn. auto.
Qed.

(** Trimming gives a rest, respectively a start, of the slice. *)
Lemma TrimLeftFunc_suffix s f : exists i, bytes.TrimLeftFunc s f = slice_from s i.
Proof.
  unfold bytes.TrimLeftFunc. destruct (bytes.indexFunc s f false) as [i|]; [by exists i|].
  exists (String.length s). by rewrite slice_from_ge.
Qed.

Lemma TrimRightFunc_prefix s f : exists k, bytes.TrimRightFunc s f = slice_to s k.
Proof.
  unfold bytes.TrimRightFunc. destruct (bytes.lastIndexFunc s f false) as [i|]; [|by exists 0%nat].
  destruct (utf8.RuneSelf <=? byte_at s i)%N; eauto.
Qed.

Lemma TrimPrefix_suffix s pre : exists i, bytes.TrimPrefix s pre = slice_from s i.
Proof.
  unfold bytes.TrimPrefix. destruct (bytes.HasPrefix s pre); [eauto|by exists 0%nat].
Qed.

Lemma list_ascii_of_string_slice_to s n c :
  In c (list_ascii_of_string (slice_to s n)) -> In c (list_ascii_of_string s).
Proof.
  revert s. induction n as [|n IH]; intros s; [done|].
  destruct s as [|d s]; [done|]. cbn. intros [->|H]; [by left|]. right. by apply IH.
Qed.

(** The slice the key loop runs on: the input without leading white space
    and without an [export] that white space follows. *)
Definition keySource (src : string) : string :=
  let src := bytes.TrimLeftFunc src isSpace in
  if bytes.HasPrefix src exportPrefix then
    let trimmed := bytes.TrimPrefix src exportPrefix in
    if bool_decide (bytes.IndexFunc trimmed isSpace = Some 0%nat)
    then bytes.TrimLeftFunc trimmed isSpace
    else src
  else src.

Lemma keySource_suffix src : exists i, keySource src = slice_from src i.
Proof.
  unfold keySource.
  destruct (TrimLeftFunc_suffix src isSpace) as [i ->].
  destruct (bytes.HasPrefix _ _); [|eauto].
  destruct (bool_decide _); [|eauto].
  destruct (TrimPrefix_suffix (slice_from src i) exportPrefix) as [j ->].
  destruct (TrimLeftFunc_suffix (slice_from (slice_from src i) j) isSpace) as [k ->].
  rewrite !slice_from_from. eauto.
Qed.

Lemma locateKeyName_unfold src :
  locateKeyName src =
    match keyLoop 0 (keySource src) with
    | KeyBad char => Err (ErrUnexpectedChar char (keySource src))
    | KeyEnd i =>
        if (String.length (keySource src) =? 0)%nat then Err ErrZeroLength
        else Ok (bytes.TrimRightFunc (slice_to (keySource src) i) unicode.IsSpace,
                 bytes.TrimLeftFunc (slice_from (keySource src) (S i)) isSpace)
    | KeyNone =>
        if (String.length (keySource src) =? 0)%nat then Err ErrZeroLength
        else Ok (bytes.TrimRightFunc EmptyString unicode.IsSpace,
                 bytes.TrimLeftFunc (slice_from (keySource src) 0) isSpace)
    end.
Proof.
  unfold locateKeyName. fold (keySource src). by destruct (keyLoop 0 (keySource src)).
Qed.

Lemma Ok_pair_inj {A B} (a c : A) (b d : B) :
  Ok (a, b) = Ok (c, d) -> a = c /\ b = d.
Proof. by intros [= -> ->]. Qed.

Lemma keyByte_not c d : keyByte c = true -> keyByte d = false -> c <> d.
Proof. intros H1 H2 ->. congruence. Qed.

(** X3.  A key that [locateKeyName] returns is made of bytes the key loop
    accepts: it has no separator, no NUL byte and no newline, so
    [os.Setenv] takes it with any value free of NUL bytes as soon as it is
    not empty.  What is left over is a rest of the input. *)
Theorem locateKeyName_key_bytes src key rest :
  locateKeyName src = Ok (key, rest) ->
  (forall c, In c (list_ascii_of_string key) -> keyByte c = true)
  /\ hasByte "=" key = false /\ hasByte ":" key = false
  /\ hasByte zero key = false /\ hasByte LF key = false
  /\ (exists i, rest = slice_from src i)
  /\ (forall e v, key <> EmptyString -> hasByte zero v = false ->
        os.Setenv e key v = Some (<[key := v]> e)).
Proof.
  rewrite locateKeyName_unfold. intros H.
  assert ((forall c, In c (list_ascii_of_string key) -> keyByte c = true)
          /\ exists i, rest = slice_from src i) as [Hall Hrest].
  { destruct (keySource_suffix src) as [i0 Hsrc].
    destruct (keyLoop 0 (keySource src)) as [i| |char] eqn:Ek; [| |done];
      destruct (String.length (keySource src) =? 0)%nat; try done;
      apply Ok_pair_inj in H as [<- <-].
    - apply keyLoop_KeyEnd in Ek as (_ & _ & Hall & _). rewrite Nat.sub_0_r in Hall.
      split.
      + destruct (TrimRightFunc_prefix (slice_to (keySource src) i) unicode.IsSpace) as [k ->].
        intros c Hc. apply Hall. by eapply list_ascii_of_string_slice_to.
      + destruct (TrimLeftFunc_suffix (slice_from (keySource src) (S i)) isSpace) as [k ->].
        rewrite Hsrc, !slice_from_from. eauto.
    - split; [by intros c Hc|].
      destruct (TrimLeftFunc_suffix (slice_from (keySource src) 0) isSpace) as [k ->].
      rewrite Hsrc, !slice_from_from. eauto. }
  assert (forall d, keyByte d = false -> hasByte d key = false) as Hno.
  { intros d Hd. apply hasByte_false. intros Hin. apply Hall in Hin. congruence. }
  split; [done|]. repeat (split; [by apply Hno; vm_compute|]).
  split; [done|]. intros e v Hk Hv. apply Setenv_valid; auto; by apply Hno; vm_compute.
Qed.

Lemma locateKeyName_key_bytes_witness :
  hasByte "=" "GREETING" = false
  /\ os.Setenv ∅ "GREETING" "hi" = Some (<[ "GREETING" := "hi" ]> ∅).
Proof.
  destruct (locateKeyName_key_bytes ("export GREETING = " +:+ DQ +:+ "hi" +:+ DQ)
              "GREETING" (DQ +:+ "hi" +:+ DQ)) as (_ & H1 & _ & _ & _ & _ & H2).
  - vm_compute. reflexivity.
  - split; [exact H1|]. apply H2; [intros E; discriminate E|reflexivity].
Defined.

(** X4.  The errors of [locateKeyName]: a statement of which nothing is
    left after the white space and the [export] prefix, or a byte that is
    neither a separator nor accepted in a key; the error quotes that byte
    and the text it was found in, which is a rest of the input. *)
Theorem locateKeyName_errors src e :
  locateKeyName src = Err e ->
  (e = ErrZeroLength /\ keySource src = EmptyString)
  \/ (exists char, e = ErrUnexpectedChar char (keySource src)
        /\ In char (list_ascii_of_string (keySource src))
        /\ keyByte char = false /\ isSeparator char = false
        /\ exists i, keySource src = slice_from src i).
Proof.
  rewrite locateKeyName_unfold. intros H.
  destruct (keyLoop 0 (keySource src)) as [i| |char] eqn:Ek.
  - destruct (keySource src) as [|c t]; [done|]. cbn in H. discriminate H.
  - destruct (keySource src) as [|c t]; [|cbn in H; discriminate H].
    cbn in H. injection H as <-. by left.
  - injection H as <-. right. exists char.
    apply keyLoop_KeyBad in Ek as (? & ? & ?). repeat (split; [done|]).
    apply keySource_suffix.
Qed.

Lemma locateKeyName_errors_witness :
  exists char, ErrUnexpectedChar "!" "1BAD!=x" = ErrUnexpectedChar char (keySource "  1BAD!=x")
    /\ In char (list_ascii_of_string (keySource "  1BAD!=x")).
Proof.
  destruct (locateKeyName_errors "  1BAD!=x" (ErrUnexpectedChar "!" "1BAD!=x"))
    as [[E _]|(char & E & Hin & _)].
  - vm_compute. reflexivity.
  - discriminate E.
  - exists char. by split.
Defined.

(** ** Trimming on the left *)

Lemma isSpace_IsSpace r : isSpace r = true -> unicode.IsSpace r = true.
Proof.
  unfold isSpace, slices.Contains. intros H%bool_decide_eq_true.
  rewrite !elem_of_cons, elem_of_nil in H.
  destruct H as [->|[->|[->|[->|[->|[->|[->|[]]]]]]]]; reflexivity.
Qed.

Lemma indexFunc_encoded f truth rs rest start :
  Forall (fun r => unicode.IsSpace r = true /\ Bool.eqb (f r) truth = false) rs ->
  bytes.indexFunc_from f truth 0 start (utf8.encode rs +:+ rest)
    = bytes.indexFunc_from f truth 0 (start + String.length (utf8.encode rs)) rest.
Proof.
  intros Hrs. revert start. induction Hrs as [|r rs [Hr Hf] _ IH]; intros start.
  - cbn [utf8.encode String.length]. by rewrite str_app_nil_l, Nat.add_0_r.
  - cbn [utf8.encode]. rewrite str_app_assoc.
    destruct (step_space r (utf8.encode rs +:+ rest) Hr) as [Hstep Hlen].
    rewrite indexFunc_head.
    + rewrite Hstep. cbn [fst snd]. rewrite Hf.
      rewrite slice_from_length, IH. f_equal. rewrite str_length_app. lia.
    + destruct (utf8.EncodeRune r); [cbn in Hlen; lia|done].
Qed.

(** A slice that is empty or starts with a rune [f] refuses. *)
Definition stopsAt (f : N -> bool) (s : string) : Prop :=
  s = EmptyString \/ f (fst (utf8.DecodeRune s)) = false.

Lemma TrimLeftFunc_stops f s : stopsAt f s -> bytes.TrimLeftFunc s f = s.
Proof.
  intros [->|Hf]; [done|]. unfold bytes.TrimLeftFunc, bytes.indexFunc.
  destruct s as [|c t]; [done|].
  rewrite indexFunc_head, step_DecodeRune, Hf by done. reflexivity.
Qed.

Lemma TrimLeftFunc_encoded f rs s :
  Forall (fun r => unicode.IsSpace r = true /\ f r = true) rs ->
  stopsAt f s ->
  bytes.TrimLeftFunc (utf8.encode rs +:+ s) f = s.
Proof.
  intros Hrs Hs. unfold bytes.TrimLeftFunc, bytes.indexFunc.
  rewrite indexFunc_encoded.
  2:{ eapply Forall_impl; [exact Hrs|]. intros r [? ->]. done. }
  cbn [Nat.add]. rewrite indexFunc_add.
  pose proof (TrimLeftFunc_stops f s Hs) as Hid.
  unfold bytes.TrimLeftFunc, bytes.indexFunc in Hid.
  destruct (bytes.indexFunc_from f false 0 0 s) as [i|]; cbn [fmap option_fmap option_map].
  - by rewrite slice_from_app_r.
  - done.
Qed.

Lemma HasPrefix_app p x : bytes.HasPrefix (p +:+ x) p = true.
Proof.
  unfold bytes.HasPrefix. induction p as [|c p IH]; [by destruct x|].
  rewrite str_app_cons. cbn [String.prefix]. by destruct (ascii_dec c c).
Qed.

Lemma TrimPrefix_app p x : bytes.TrimPrefix (p +:+ x) p = x.
Proof. unfold bytes.TrimPrefix. by rewrite HasPrefix_app, slice_from_length. Qed.

(** X5.  An [export] followed by white space of the fixed set is dropped
    with that white space: the statement is lexed as what follows, as long
    as that is not a second [export]. *)
Theorem locateKeyName_export rs s :
  rs <> [] ->
  Forall (fun r => isSpace r = true) rs ->
  stopsAt isSpace s ->
  bytes.HasPrefix s exportPrefix = false ->
  locateKeyName (exportPrefix +:+ utf8.encode rs +:+ s) = locateKeyName s.
Proof.
  intros Hne Hrs Hs Hpre.
  assert (Forall (fun r => unicode.IsSpace r = true /\ isSpace r = true) rs) as Hrs'.
  { eapply Forall_impl; [exact Hrs|]. intros r Hr. split; [by apply isSpace_IsSpace|done]. }
  assert (keySource (exportPrefix +:+ utf8.encode rs +:+ s) = keySource s) as Hsrc.
  { unfold keySource. rewrite (TrimLeftFunc_stops isSpace s Hs), Hpre.
    rewrite TrimLeftFunc_stops by (right; reflexivity).
    rewrite HasPrefix_app, TrimPrefix_app. rewrite TrimLeftFunc_encoded by done.
    rewrite bool_decide_eq_true_2; [done|].
    destruct rs as [|r rs]; [done|]. apply Forall_cons in Hrs' as [[Hr Hr'] _].
    cbn [utf8.encode]. rewrite str_app_assoc.
    destruct (step_space r (utf8.encode rs +:+ s) Hr) as [Hstep Hlen].
    unfold bytes.IndexFunc, bytes.indexFunc. rewrite indexFunc_head.
    - rewrite Hstep. cbn [fst snd]. by rewrite Hr'.
    - destruct (utf8.EncodeRune r); [cbn in Hlen; lia|done]. }
  by rewrite !locateKeyName_unfold, Hsrc.
Qed.

Lemma locateKeyName_export_witness :
  locateKeyName ("export " +:+ "GREETING = hi") = locateKeyName "GREETING = hi".
Proof.
  apply (locateKeyName_export [0x20%N] "GREETING = hi").
  - intros E; discriminate E.
  - repeat constructor.
  - right. reflexivity.
  - reflexivity.
Defined.

(** ** Plain keys *)

(** The bytes of [[A-Za-z0-9_.]], and the ASCII bytes of [isSpace]. *)
Definition plainByte (c : ascii) : bool :=
  let n := N_of_ascii c in
  (((65 <=? n) && (n <=? 90)) || ((97 <=? n) && (n <=? 122))
   || ((48 <=? n) && (n <=? 57)) || (n =? 95) || (n =? 46))%N.

Definition blankByte (c : ascii) : bool :=
  isSpace (N_of_ascii c) && (N_of_ascii c <? 0x80)%N.

Definition allBytes (p : ascii -> bool) (s : string) : Prop :=
  forall c, In c (list_ascii_of_string s) -> p c = true.

Lemma plainByte_facts c :
  plainByte c = true ->
  (N_of_ascii c < 0x80)%N /\ isSpace (N_of_ascii c) = false
  /\ unicode.IsSpace (N_of_ascii c) = false
  /\ isSeparator c = false /\ keyByte c = true.
Proof.
  destruct c as [[] [] [] [] [] [] [] []]; vm_compute; intros H;
    try discriminate H; repeat split.
Qed.

Lemma blankByte_facts c :
  blankByte c = true ->
  (N_of_ascii c < 0x80)%N /\ isSpace (N_of_ascii c) = true
  /\ unicode.IsSpace (N_of_ascii c) = true
  /\ isSeparator c = false /\ keyByte c = true /\ plainByte c = false.
Proof.
  destruct c as [[] [] [] [] [] [] [] []]; vm_compute; intros H;
    try discriminate H; repeat split.
Qed.

Lemma isSeparator_facts c :
  isSeparator c = true ->
  (N_of_ascii c < 0x80)%N /\ isSpace (N_of_ascii c) = false /\ plainByte c = false.
Proof.
  unfold isSeparator. intros [->%Ascii.eqb_eq | ->%Ascii.eqb_eq]%orb_true_iff;
    by vm_compute.
Qed.

Lemma list_ascii_of_string_app s t :
  list_ascii_of_string (s +:+ t) = (list_ascii_of_string s ++ list_ascii_of_string t)%list.
Proof. induction s as [|c s IH]; [done|]. rewrite str_app_cons. cbn. by rewrite IH. Qed.

Lemma allBytes_app p s t : allBytes p (s +:+ t) <-> allBytes p s /\ allBytes p t.
Proof.
  unfold allBytes. split.
  - intros H. split; intros c Hc; apply H; rewrite list_ascii_of_string_app;
      apply in_or_app; auto.
  - intros [H1 H2] c Hc. rewrite list_ascii_of_string_app in Hc.
    apply in_app_or in Hc as [Hc|Hc]; auto.
Qed.

Lemma DecodeRune_ascii c t :
  (N_of_ascii c < 0x80)%N -> utf8.DecodeRune (String c t) = (N_of_ascii c, 1%nat).
Proof. intros H. rewrite <- step_DecodeRune by done. by apply step_ascii. Qed.

Lemma keyLoop_pass pre rest i :
  allBytes (fun c => keyByte c && negb (isSeparator c)) pre ->
  keyLoop i (pre +:+ rest) = keyLoop (i + String.length pre) rest.
Proof.
  revert i. induction pre as [|c pre IH]; intros i Hpre.
  - by rewrite str_app_nil_l, Nat.add_0_r.
  - rewrite str_app_cons, keyLoop_step.
    pose proof (Hpre c (or_introl eq_refl)) as [Hk Hs]%andb_true_iff.
    apply negb_true_iff in Hs.
    rewrite Hs, Hk. replace (i + String.length (String c pre))%nat
      with (S i + String.length pre)%nat by (cbn; lia).
    assert (allBytes (fun c => keyByte c && negb (isSeparator c)) pre) as Hpre'
      by (intros d Hd; apply Hpre; by right).
    destruct (isSpace (N_of_ascii c)); by apply IH.
Qed.

(** A prefix of plain bytes of a slice that continues with another byte
    lies inside the plain part. *)
Lemma prefix_in_key p : forall key d tail,
  String.prefix p (key +:+ String d tail) = true ->
  allBytes plainByte p -> plainByte d = false ->
  (String.length p <= String.length key)%nat /\ slice_to key (String.length p) = p.
Proof.
  induction p as [|a p IH]; intros key d tail Hpre Hp Hd; [cbn; split; [lia|done]|].
  destruct key as [|c key].
  - rewrite str_app_nil_l in Hpre. cbn [String.prefix] in Hpre.
    destruct (ascii_dec a d) as [->|]; [|done].
    rewrite Hp in Hd by (by left). done.
  - rewrite str_app_cons in Hpre. cbn [String.prefix] in Hpre.
    destruct (ascii_dec a c) as [->|]; [|done].
    apply IH in Hpre as [Hlen Hs]; [|intros x Hx; apply Hp; by right|done].
    cbn [String.length slice_to]. split; [lia|by rewrite Hs].
Qed.

Lemma slice_to_all s : slice_to s (String.length s) = s.
Proof. induction s as [|c s IH]; [done|]. cbn. by rewrite IH. Qed.

Lemma slice_from_head_In s n c t :
  slice_from s n = String c t -> In c (list_ascii_of_string s).
Proof.
  intros H. apply (list_ascii_of_string_slice_from s n). rewrite H. by left.
Qed.

Lemma keySource_plain key d tail :
  key <> EmptyString -> allBytes plainByte key -> key <> exportPrefix ->
  plainByte d = false ->
  keySource (key +:+ String d tail) = key +:+ String d tail.
Proof.
  intros Hne Hkey Hexp Hd. unfold keySource.
  destruct key as [|c key]; [done|].
  destruct (plainByte_facts c) as (Hc & Hsp & _); [apply Hkey; by left|].
  rewrite TrimLeftFunc_stops.
  2:{ right. rewrite str_app_cons, DecodeRune_ascii by done. done. }
  destruct (bytes.HasPrefix (String c key +:+ String d tail) exportPrefix) eqn:Hpre; [|done].
  unfold bytes.TrimPrefix. rewrite Hpre.
  apply prefix_in_key in Hpre as [Hlen Hslice]; [|by vm_compute; intros x [<-|[<-|[<-|[<-|[<-|[<-|[]]]]]]]|done].
  rewrite bool_decide_eq_false_2; [done|]. intros Hidx.
  unfold bytes.IndexFunc, bytes.indexFunc in Hidx.
  apply indexFunc_Some in Hidx as [_ Hf]. cbn [Nat.sub] in Hf.
  rewrite slice_from_0, slice_from_app in Hf by done.
  destruct (slice_from (String c key) (String.length exportPrefix)) as [|x rest] eqn:Es.
  - destruct Hexp. rewrite <- Hslice.
    pose proof (length_slice_from (String c key) (String.length exportPrefix)) as Hl.
    rewrite Es in Hl. cbn [String.length] in Hl.
    replace (String.length exportPrefix) with (String.length (String c key)) by (cbn in *; lia).
    by rewrite slice_to_all.
  - apply slice_from_head_In in Es. apply Hkey in Es.
    destruct (plainByte_facts x Es) as (Hx & Hxs & _).
    rewrite str_app_cons, step_ascii in Hf by done. cbn [fst] in Hf.
    rewrite Hxs in Hf. done.
Qed.

(** ** Trimming on the right *)

Lemma byte_at_app_l s t i :
  (i < String.length s)%nat -> byte_at (s +:+ t) i = byte_at s i.
Proof.
  revert i. induction s as [|c s IH]; intros i Hi; [cbn in Hi; lia|].
  rewrite str_app_cons. destruct i; [done|]. rewrite !byte_at_S. apply IH. cbn in Hi. lia.
Qed.

Lemma byte_at_app_r' s t k : byte_at (s +:+ t) (String.length s + k) = byte_at t k.
Proof.
  induction s as [|c s IH]; [done|]. rewrite str_app_cons. cbn [String.length Nat.add].
  by rewrite byte_at_S.
Qed.

Lemma byte_at_In s i :
  (i < String.length s)%nat ->
  exists c, In c (list_ascii_of_string s) /\ byte_at s i = N_of_ascii c.
Proof.
  revert i. induction s as [|c s IH]; intros i Hi; [cbn in Hi; lia|].
  destruct i.
  - exists c. split; [by left|done].
  - destruct (IH i) as (d & Hd & E); [cbn in Hi; lia|]. exists d. split; [by right|].
    by rewrite byte_at_S.
Qed.

(** One round of the loop of [lastIndexFunc] on an ASCII byte. *)
Lemma lastIndexFunc_step k s f truth i :
  (0 < i)%nat -> (byte_at s (i - 1) < 0x80)%N ->
  bytes.lastIndexFunc_loop (S k) s f truth i =
    if Bool.eqb (f (byte_at s (i - 1))) truth then Some (i - 1)%nat
    else bytes.lastIndexFunc_loop k s f truth (i - 1).
Proof.
  intros Hi Hb. cbn [bytes.lastIndexFunc_loop].
  apply Nat.ltb_lt in Hi. rewrite Hi. unfold utf8.RuneSelf.
  apply N.ltb_lt in Hb. by rewrite Hb.
Qed.

(** Trailing ASCII bytes that [f] accepts are trimmed up to an ASCII byte
    that it refuses. *)
Lemma TrimRightFunc_trailing f s ws :
  s <> EmptyString ->
  (byte_at s (String.length s - 1) < 0x80)%N ->
  f (byte_at s (String.length s - 1)) = false ->
  allBytes (fun c => (N_of_ascii c <? 0x80)%N && f (N_of_ascii c)) ws ->
  bytes.TrimRightFunc (s +:+ ws) f = s.
Proof.
  intros Hne Hb Hsp Hws.
  assert (0 < String.length s)%nat as Hlen by (destruct s; [done|cbn; lia]).
  assert (forall j k, (j <= String.length ws)%nat -> (j < k)%nat ->
            bytes.lastIndexFunc_loop k (s +:+ ws) f false (String.length s + j)
              = Some (String.length s - 1)%nat) as Hloop.
  { induction j as [|j IH]; intros k Hj Hk; (destruct k as [|k]; [lia|]).
    - rewrite Nat.add_0_r, lastIndexFunc_step; rewrite ?byte_at_app_l by lia; try done.
      by rewrite Hsp.
    - destruct (byte_at_In ws j) as (c & Hc & Ec); [lia|].
      pose proof (Hws c Hc) as [Hc1%N.ltb_lt Hc2]%andb_true_iff.
      rewrite lastIndexFunc_step;
        replace (String.length s + S j - 1)%nat with (String.length s + j)%nat by lia;
        rewrite ?byte_at_app_r', ?Ec; try done; [|lia].
      rewrite Hc2. cbn [Bool.eqb]. apply IH; lia. }
  unfold bytes.TrimRightFunc, bytes.lastIndexFunc. rewrite str_length_app.
  rewrite Hloop by lia. rewrite byte_at_app_l by lia.
  unfold utf8.RuneSelf. apply N.ltb_lt in Hb. rewrite N.leb_antisym, Hb. cbn [negb].
  replace (String.length s - 1 + 1)%nat with (String.length s) by lia.
  apply slice_to_length.
Qed.

Lemma TrimRightFunc_blanks s ws :
  s <> EmptyString ->
  (byte_at s (String.length s - 1) < 0x80)%N ->
  unicode.IsSpace (byte_at s (String.length s - 1)) = false ->
  allBytes blankByte ws ->
  bytes.TrimRightFunc (s +:+ ws) unicode.IsSpace = s.
Proof.
  intros Hne Hb Hsp Hws. apply TrimRightFunc_trailing; try done.
  intros c Hc. destruct (blankByte_facts c (Hws c Hc)) as (H1%N.ltb_lt & _ & H2 & _).
  by rewrite H1, H2.
Qed.

Lemma last_byte_In s :
  s <> EmptyString ->
  exists c, In c (list_ascii_of_string s) /\ byte_at s (String.length s - 1) = N_of_ascii c.
Proof. intros H. apply byte_at_In. destruct s; [done|cbn; lia]. Qed.

(** X6.  A statement that starts with a key of bytes of [[A-Za-z0-9_.]]
    other than the word [export], ASCII white space of the fixed set, and a
    separator [=] or [:], has that key; the rest is what follows the
    separator, less its leading white space.  So [exportFOO=1] has the key
    [exportFOO]. *)
Theorem locateKeyName_plain key ws sep v :
  key <> EmptyString -> allBytes plainByte key -> key <> exportPrefix ->
  allBytes blankByte ws -> isSeparator sep = true ->
  locateKeyName (key +:+ ws +:+ String sep v)
    = Ok (key, bytes.TrimLeftFunc v isSpace).
Proof.
  intros Hne Hkey Hexp Hws Hsep.
  destruct (isSeparator_facts sep Hsep) as (Hs1 & Hs2 & Hs3).
  assert (keySource (key +:+ ws +:+ String sep v) = key +:+ ws +:+ String sep v) as Hsrc.
  { destruct ws as [|d ws'].
    - rewrite str_app_nil_l. by apply keySource_plain.
    - rewrite str_app_cons. apply keySource_plain; try done.
      by destruct (blankByte_facts d (Hws d (or_introl eq_refl))) as (_ & _ & _ & _ & _ & ?). }
  rewrite locateKeyName_unfold, Hsrc.
  rewrite <- str_app_assoc, keyLoop_pass.
  2:{ apply allBytes_app. split; intros c Hc.
      - destruct (plainByte_facts c (Hkey c Hc)) as (_ & _ & _ & -> & ->). done.
      - destruct (blankByte_facts c (Hws c Hc)) as (_ & _ & _ & -> & -> & _). done. }
  cbn [Nat.add]. rewrite keyLoop_step, Hs2, Hsep.
  destruct (key +:+ ws) as [|c0 t0] eqn:Ekw.
  { destruct key; [done|]. by rewrite str_app_cons in Ekw. }
  rewrite <- Ekw. clear c0 t0 Ekw.
  assert ((String.length ((key +:+ ws) +:+ String sep v) =? 0)%nat = false) as ->.
  { apply Nat.eqb_neq. rewrite !str_length_app. destruct key; [done|]. cbn. lia. }
  rewrite slice_to_length.
  replace (S (String.length (key +:+ ws))) with (String.length (key +:+ ws) + 1)%nat by lia.
  rewrite slice_from_app_r. cbn [slice_from].
  destruct (last_byte_In key Hne) as (c & Hc & Ec).
  destruct (plainByte_facts c (Hkey c Hc)) as (Hc1 & _ & Hc2 & _).
  rewrite TrimRightFunc_blanks; rewrite ?Ec; done.
Qed.

Lemma locateKeyName_plain_witness :
  locateKeyName "exportGREETING = hi" = Ok ("exportGREETING", "hi").
Proof.
  apply (locateKeyName_plain "exportGREETING" " " "=" " hi").
  - intros E; discriminate E.
  - intros c Hc. cbn in Hc. repeat (destruct Hc as [<-|Hc]; [reflexivity|]). destruct Hc.
  - intros E; discriminate E.
  - intros c Hc. cbn in Hc. repeat (destruct Hc as [<-|Hc]; [reflexivity|]). destruct Hc.
  - reflexivity.
Defined.

(** ** Quoted values *)

Definition isQuote (q : ascii) : Prop := q = prefixDoubleQuote \/ q = prefixSingleQuote.

Lemma isQuote_facts q :
  isQuote q ->
  (N_of_ascii q < 0x80)%N /\ hasQuotePrefix (String q EmptyString) = (q, true)
  /\ q <> BACKSLASH /\ q <> LF.
Proof. intros [-> | ->]; by vm_compute. Qed.

Lemma hasQuotePrefix_quote q t : isQuote q -> hasQuotePrefix (String q t) = (q, true).
Proof. intros [-> | ->]; reflexivity. Qed.

Lemma quoteLoop_none q s : forall prev i,
  hasByte q s = false -> quoteLoop q prev i s = None.
Proof.
  induction s as [|c s IH]; intros prev i H; [done|].
  apply hasByte_false in H. cbn [quoteLoop].
  destruct (Ascii.eqb_spec c q) as [->|Hne]; [destruct H; by left|].
  cbn [negb]. apply IH. apply hasByte_false. intros Hin. apply H. by right.
Qed.

Lemma quoteLoop_found q body rest : forall prev i,
  hasByte q body = false ->
  (match body with EmptyString => prev | _ => chr (byte_at body (String.length body - 1)) end)
    <> BACKSLASH ->
  quoteLoop q prev i (body +:+ String q rest) = Some (i + String.length body)%nat.
Proof.
  induction body as [|c body IH]; intros prev i H Hlast.
  - rewrite str_app_nil_l. cbn [quoteLoop]. rewrite Ascii.eqb_refl. cbn [negb].
    destruct (Ascii.eqb_spec prev BACKSLASH); [done|]. by rewrite Nat.add_0_r.
  - apply hasByte_false in H. rewrite str_app_cons. cbn [quoteLoop].
    destruct (Ascii.eqb_spec c q) as [->|Hne]; [destruct H; by left|].
    cbn [negb]. rewrite IH.
    + f_equal. cbn. lia.
    + apply hasByte_false. intros Hin. apply H. by right.
    + destruct body as [|d body].
      * cbn in Hlast. unfold chr in Hlast. by rewrite ascii_N_embedding in Hlast.
      * cbn [String.length] in Hlast |- *.
        replace (S (S (String.length body)) - 1)%nat
          with (S (S (String.length body) - 1)) in Hlast by lia.
        by rewrite byte_at_S in Hlast.
Qed.

(** X7.  A value that opens with a quote and has no second quote of that
    kind fails with the unterminated-value error, which quotes the input up
    to the first newline, or all of it when there is none. *)
Theorem extractVarValue_unterminated q line after vars :
  isQuote q ->
  hasByte q (line +:+ after) = false ->
  hasByte LF line = false ->
  (after = EmptyString \/ exists t, after = String LF t) ->
  extractVarValue (String q (line +:+ after)) vars = Err (ErrUnterminated (String q line)).
Proof.
  intros Hq Hno Hline Hafter.
  destruct (isQuote_facts q Hq) as (Hq1 & _ & _ & Hq2).
  unfold extractVarValue. rewrite hasQuotePrefix_quote by done. cbn [negb].
  rewrite quoteLoop_none by done. do 2 f_equal.
  assert (hasByte LF (String q line) = false) as Hline'.
  { apply hasByte_false. intros [E|Hin]; [by subst|]. by apply hasByte_false in Hline. }
  destruct Hafter as [->|[t ->]].
  - rewrite str_app_nil_r. rewrite (IndexFunc_byte_none LF) by (done || by vm_compute).
    cbn [default]. apply slice_to_all.
  - change (String q (line +:+ String LF t)) with (String q line +:+ String LF t).
    rewrite (IndexFunc_byte LF) by (done || by vm_compute). cbn [default].
    apply slice_to_length.
Qed.

Lemma extractVarValue_unterminated_witness :
  extractVarValue (DQ +:+ "unterminated" +:+ NL +:+ "B=2") ∅
    = Err (ErrUnterminated (DQ +:+ "unterminated")).
Proof.
  apply (extractVarValue_unterminated prefixDoubleQuote "unterminated" (NL +:+ "B=2") ∅).
  - by left.
  - reflexivity.
  - reflexivity.
  - right. by exists "B=2".
Defined.

Lemma lastStart_le fuel p lim start : (utf8.lastStart fuel p lim start <= start)%Z.
Proof.
  revert start. induction fuel as [|fuel IH]; intros start; cbn [utf8.lastStart]; [lia|].
  destruct (start >=? lim)%Z; [|lia].
  destruct (utf8.RuneStart _); [lia|]. specialize (IH (start - 1)%Z). lia.
Qed.

Lemma DecodeRune_single s :
  String.length s = 1%nat -> snd (utf8.DecodeRune s) = 1%nat.
Proof.
  intros Hl. destruct (DecodeRune_width s) as [H1 Hw]; [by destruct s|].
  destruct (decide (snd (utf8.DecodeRune s) = 1%nat)) as [|Hne]; [done|].
  destruct (Hw 1%nat); lia.
Qed.

Lemma slice_from_cons s i :
  (i < String.length s)%nat ->
  slice_from s i = String (chr (byte_at s i)) (slice_from s (S i)).
Proof.
  revert i. induction s as [|c s IH]; intros i Hi; [cbn in Hi; lia|].
  destruct i.
  - cbn. unfold chr. by rewrite ascii_N_embedding.
  - rewrite byte_at_S. cbn [slice_from]. apply IH. cbn in Hi. lia.
Qed.

Lemma N_of_chr_byte s i : N_of_ascii (chr (byte_at s i)) = byte_at s i.
Proof.
  unfold chr, byte_at. destruct (String.get i s) as [c|].
  - by rewrite ascii_N_embedding.
  - reflexivity.
Qed.

(** The last rune of a slice that ends in a byte that is not ASCII. *)
Lemma DecodeLastRune_nonascii p :
  p <> EmptyString ->
  (0x80 <= byte_at p (String.length p - 1))%N ->
  (0x80 <= fst (utf8.DecodeLastRune p))%N
  /\ (1 <= snd (utf8.DecodeLastRune p) <= String.length p)%nat
  /\ (0x80 <= byte_at p (String.length p - snd (utf8.DecodeLastRune p)))%N
  /\ snd (utf8.DecodeRune (slice_from p (String.length p - snd (utf8.DecodeLastRune p))))
     = snd (utf8.DecodeLastRune p).
Proof.
  intros Hne Hb.
  assert (0 < String.length p)%nat as Hlen by (destruct p; [done|cbn; lia]).
  unfold utf8.DecodeLastRune.
  destruct (Nat.eqb_spec (String.length p) 0) as [|_]; [lia|].
  unfold utf8.RuneSelf. apply N.ltb_ge in Hb. rewrite Hb. apply N.ltb_ge in Hb.
  set (start := Z.to_nat (Z.max 0 (utf8.lastStart utf8.UTFMax p
                 (Z.max 0 (Z.of_nat (String.length p) - Z.of_nat utf8.UTFMax))
                 (Z.of_nat (String.length p) - 2)))).
  assert (start < String.length p)%nat as Hstart.
  { subst start. pose proof (lastStart_le utf8.UTFMax p
      (Z.max 0 (Z.of_nat (String.length p) - Z.of_nat utf8.UTFMax))
      (Z.of_nat (String.length p) - 2)). lia. }
  replace (slice_to (slice_from p start) (String.length p - start))
    with (slice_from p start)
    by (by rewrite <- (length_slice_from p start), slice_to_all).
  destruct (utf8.DecodeRune (slice_from p start)) as [r size] eqn:Edec.
  destruct (Nat.eqb_spec (start + size) (String.length p)) as [Eend|Eend]; cbn [negb fst snd].
  - assert (slice_from p start <> EmptyString) as Hsl.
    { intros E. pose proof (length_slice_from p start) as Hl. rewrite E in Hl. cbn in Hl. lia. }
    destruct (DecodeRune_width _ Hsl) as [Hw _]. rewrite Edec in Hw. cbn [snd] in Hw.
    replace (String.length p - size)%nat with start by lia.
    assert (0x80 <= byte_at p start)%N as Hhead.
    { destruct (N.ltb_spec (byte_at p start) 0x80) as [Hlt|]; [|done].
      rewrite slice_from_cons in Edec by done.
      rewrite DecodeRune_ascii in Edec by (by rewrite N_of_chr_byte).
      injection Edec as <- <-. replace start with (String.length p - 1)%nat in Hlt by lia. lia. }
    split; [|split; [lia|split; [done|by rewrite Edec]]].
    rewrite slice_from_cons in Edec by done.
    pose proof (DecodeRune_nonascii (chr (byte_at p start)) (slice_from p (S start))) as Hr.
    rewrite Edec, N_of_chr_byte in Hr. by apply Hr.
  - split; [by vm_compute|]. split; [lia|]. split; [done|].
    apply DecodeRune_single. rewrite length_slice_from. lia.
Qed.

(** Nothing is trimmed on the right of a slice whose last rune [f]
    refuses. *)
Lemma TrimRightFunc_keep s f :
  s <> EmptyString ->
  (forall r, (0x80 <= r)%N -> f r = false) ->
  ((byte_at s (String.length s - 1) < 0x80)%N -> f (byte_at s (String.length s - 1)) = false) ->
  bytes.TrimRightFunc s f = s.
Proof.
  intros Hne Hhigh Hlow.
  assert (0 < String.length s)%nat as Hlen by (destruct s; [done|cbn; lia]).
  unfold bytes.TrimRightFunc, bytes.lastIndexFunc.
  replace (bytes.lastIndexFunc_loop (String.length s) s f false (String.length s))
    with (bytes.lastIndexFunc_loop (S (String.length s - 1)) s f false (String.length s))
    by (f_equal; lia).
  cbn [bytes.lastIndexFunc_loop].
  apply Nat.ltb_lt in Hlen. rewrite Hlen. apply Nat.ltb_lt in Hlen.
  unfold utf8.RuneSelf in *.
  destruct (N.ltb_spec (byte_at s (String.length s - 1)) 0x80) as [Hb|Hb].
  - rewrite Hlow by done. cbn [Bool.eqb].
    apply N.ltb_lt in Hb. rewrite N.leb_antisym, Hb. cbn [negb].
    replace (String.length s - 1 + 1)%nat with (String.length s) by lia. apply slice_to_all.
  - rewrite slice_to_all.
    destruct (DecodeLastRune_nonascii s Hne Hb) as (Hr & Hsz & Hhead & Hw).
    destruct (utf8.DecodeLastRune s) as [r size]. cbn [fst snd] in *.
    rewrite Hhigh by done. cbn [Bool.eqb].
    apply N.leb_le in Hhead. rewrite Hhead, Hw.
    replace (String.length s - size + size)%nat with (String.length s) by lia.
    apply slice_to_all.
Qed.

Lemma not_q_byte q s c :
  hasByte q s = false -> In c (list_ascii_of_string s) ->
  isCharFunc (N_of_ascii q) (N_of_ascii c) = false.
Proof.
  intros H Hin. unfold isCharFunc.
  destruct (N.eqb_spec (N_of_ascii c) (N_of_ascii q)) as [E|]; [|done].
  apply hasByte_false in H. destruct H.
  by rewrite <- (ascii_N_embedding q), <- E, ascii_N_embedding.
Qed.

Lemma isCharFunc_high q r :
  (N_of_ascii q < 0x80)%N -> (0x80 <= r)%N -> isCharFunc (N_of_ascii q) r = false.
Proof. intros Hq Hr. unfold isCharFunc. apply N.eqb_neq. lia. Qed.

(** The quotes are trimmed off a slice that opens with the quote and has
    no other. *)
Lemma trim_quotes q body :
  isQuote q -> hasByte q body = false ->
  bytes.TrimLeftFunc
    (bytes.TrimRightFunc (String q body) (isCharFunc (N_of_ascii q)))
    (isCharFunc (N_of_ascii q)) = body.
Proof.
  intros Hq Hno. destruct (isQuote_facts q Hq) as (Hq1 & _).
  destruct body as [|c body].
  { destruct Hq as [-> | ->]; by vm_compute. }
  rewrite TrimRightFunc_keep; [|done|by intros r Hr; apply isCharFunc_high|].
  2:{ intros _. destruct (last_byte_In (String c body)) as (d & Hd & Ed); [done|].
      cbn [String.length] in *.
      replace (S (S (String.length body)) - 1)%nat with (S (S (String.length body) - 1)) by lia.
      rewrite byte_at_S, Ed. by eapply not_q_byte. }
  unfold bytes.TrimLeftFunc, bytes.indexFunc.
  rewrite indexFunc_head, step_ascii by done. cbn [fst snd].
  unfold isCharFunc at 1. rewrite N.eqb_refl. cbn [Bool.eqb slice_from Nat.add].
  rewrite indexFunc_head by done.
  assert (isCharFunc (N_of_ascii q) (fst (regexp.step (String c body))) = false) as ->.
  { destruct (step_rune c body) as [[_ ->]|[_ H]].
    - eapply not_q_byte; [done|by left].
    - by apply isCharFunc_high. }
  reflexivity.
Qed.

(** A quoted value that has no quote of its kind inside and does not end
    in a backslash is taken up to the closing quote: as it is between
    single quotes, escape-decoded and then expanded between double quotes;
    the rest starts after the closing quote. *)
Lemma extractVarValue_quoted q body rest vars :
  isQuote q ->
  hasByte q body = false ->
  (body = EmptyString \/ byte_at body (String.length body - 1) <> N_of_ascii BACKSLASH) ->
  extractVarValue (String q (body +:+ String q rest)) vars
    = Ok (if Ascii.eqb q prefixDoubleQuote
          then expandVariables (expandEscapes body) vars
          else body,
          rest).
Proof.
  intros Hq Hno Hlast. destruct (isQuote_facts q Hq) as (Hq1 & _ & Hq2 & _).
  unfold extractVarValue. rewrite hasQuotePrefix_quote by done. cbn [negb].
  rewrite quoteLoop_found; [|done|].
  2:{ destruct body as [|c body]; [done|]. destruct Hlast as [|Hlast]; [done|].
      intros E. apply Hlast. by rewrite <- E, N_of_chr_byte. }
  replace (slice_to (String q (body +:+ String q rest)) (1 + String.length body))
    with (String q body)
    by (cbn [Nat.add slice_to]; by rewrite slice_to_length).
  rewrite trim_quotes by done.
  replace (slice_from (String q (body +:+ String q rest)) (1 + String.length body + 1))
    with rest; [done|].
  cbn [Nat.add slice_from]. by rewrite slice_from_app_r.
Qed.

Example extractVarValue_quoted_single :
  extractVarValue ("'a b $X \n'" +:+ " # c") {[ "X" := "1" ]} = Ok ("a b $X \n", " # c").
Proof.
  apply (extractVarValue_quoted prefixSingleQuote "a b $X \n" " # c" {[ "X" := "1" ]}).
  - by right.
  - reflexivity.
  - right. intros E. vm_compute in E. discriminate E.
Qed.

(** ** Unquoted values *)























(** ** A statement of the loop *)

(** A key of bytes of [[A-Za-z0-9_.]] other than the word [export]. *)
Definition plainKey (key : string) : Prop :=
  key <> EmptyString /\ allBytes plainByte key /\ key <> exportPrefix.

(** White space, then a byte that starts a statement. *)
Lemma getStatementStart_statement rs c t :
  Forall (fun r => unicode.IsSpace r = true) rs ->
  (N_of_ascii c < 0x80)%N -> unicode.IsSpace (N_of_ascii c) = false ->
  c <> charComment ->
  getStatementStart (utf8.encode rs +:+ String c t) = Some (String c t).
Proof.
  intros Hrs Hc Hsp Hcmt. unfold getStatementStart.
  rewrite (getStatementStart_fuel_spaces rs (String c t) _
             (S (String.length (String c t)))) by (done || lia).
  cbn [getStatementStart_fuel].
  unfold indexOfNonSpaceChar, bytes.IndexFunc, bytes.indexFunc.
  rewrite indexFunc_head, step_ascii by done. cbn [fst]. rewrite Hsp.
  cbn [negb Bool.eqb slice_from]. rewrite byte_at_0.
  destruct (N.eqb_spec (N_of_ascii c) (N_of_ascii charComment)) as [E|E]; [|done].
  destruct Hcmt. by rewrite <- (ascii_N_embedding c), E.
Qed.

(** The key of a statement, and where its value starts. *)
Lemma locateKeyName_statement key ws sep tail :
  plainKey key -> allBytes blankByte ws -> isSeparator sep = true ->
  locateKeyName (key +:+ ws +:+ String sep tail)
    = Ok (key, bytes.TrimLeftFunc tail isSpace).
Proof.
  intros (Hne & Hkey & Hexp) Hws Hsep.
  destruct (isSeparator_facts sep Hsep) as (Hs1 & Hs2 & Hs3).
  assert (keySource (key +:+ ws +:+ String sep tail) = key +:+ ws +:+ String sep tail)
    as Hsrc.
  { destruct ws as [|d ws'].
    - rewrite str_app_nil_l. by apply keySource_plain.
    - rewrite str_app_cons. apply keySource_plain; try done.
      by destruct (blankByte_facts d (Hws d (or_introl eq_refl))) as (_ & _ & _ & _ & _ & ?). }
  rewrite locateKeyName_unfold, Hsrc.
  rewrite <- str_app_assoc, keyLoop_pass.
  2:{ apply allBytes_app. split; intros c Hc.
      - destruct (plainByte_facts c (Hkey c Hc)) as (_ & _ & _ & -> & ->). done.
      - destruct (blankByte_facts c (Hws c Hc)) as (_ & _ & _ & -> & -> & _). done. }
  cbn [Nat.add]. rewrite keyLoop_step, Hs2, Hsep.
  destruct (key +:+ ws) as [|c0 t0] eqn:Ekw.
  { destruct key; [done|]. by rewrite str_app_cons in Ekw. }
  rewrite <- Ekw. clear c0 t0 Ekw.
  assert ((String.length ((key +:+ ws) +:+ String sep tail) =? 0)%nat = false) as ->.
  { apply Nat.eqb_neq. rewrite !str_length_app. destruct key; [done|]. cbn. lia. }
  rewrite slice_to_length.
  replace (S (String.length (key +:+ ws))) with (String.length (key +:+ ws) + 1)%nat by lia.
  rewrite slice_from_app_r. cbn [slice_from].
  destruct (last_byte_In key Hne) as (c & Hc & Ec).
  destruct (plainByte_facts c (Hkey c Hc)) as (Hc1 & _ & Hc2 & _).
  rewrite TrimRightFunc_blanks; rewrite ?Ec; done.
Qed.

(** One round of the loop of [readFile] on a statement with a plain key:
    the value is extracted with the map built so far. *)
Lemma parseLoop_statement fuel rs key ws sep tail (out : gmap string string) :
  Forall (fun r => unicode.IsSpace r = true) rs ->
  plainKey key -> allBytes blankByte ws -> isSeparator sep = true ->
  parseLoop (S fuel) (utf8.encode rs +:+ key +:+ ws +:+ String sep tail) out
    = match extractVarValue (bytes.TrimLeftFunc tail isSpace) out with
      | Err e => (out, Some e)
      | Ok (value, rest) => parseLoop fuel rest (<[key := value]> out)
      end.
Proof.
  intros Hrs Hkey Hws Hsep. cbn [parseLoop].
  assert (getStatementStart (utf8.encode rs +:+ key +:+ ws +:+ String sep tail)
          = Some (key +:+ ws +:+ String sep tail)) as ->.
  { destruct Hkey as (Hne & Hkey & _). destruct key as [|c key]; [done|].
    destruct (plainByte_facts c (Hkey c (or_introl eq_refl))) as (Hc & _ & Hsp & _).
    rewrite str_app_cons. apply getStatementStart_statement; try done.
    intros ->. by pose proof (Hkey _ (or_introl eq_refl)). }
  by rewrite locateKeyName_statement.
Qed.

(** The white space after the separator is skipped up to a byte that is
    no white space. *)
Lemma TrimLeftFunc_value sp c t :
  Forall (fun r => isSpace r = true) sp ->
  (N_of_ascii c < 0x80)%N -> isSpace (N_of_ascii c) = false ->
  bytes.TrimLeftFunc (utf8.encode sp +:+ String c t) isSpace = String c t.
Proof.
  intros Hsp Hc Hns. apply TrimLeftFunc_encoded.
  - eapply Forall_impl; [exact Hsp|]. intros r Hr. split; [by apply isSpace_IsSpace|done].
  - right. by rewrite DecodeRune_ascii.
Qed.




(** ** A file of plain lines *)




















(** ** Statements with quoted values and with comments *)

(** X8.  A statement with a plain key and a single-quoted value that has no
    single quote inside and does not end in a backslash sets the key to the
    text between the quotes as it is, without escape decoding and without
    expansion, whatever the map built so far holds; the loop goes on right
    after the closing quote. *)
Theorem parseLoop_single_quoted fuel (out : gmap string string) rs key ws sep sp body rest :
  Forall (fun r => unicode.IsSpace r = true) rs ->
  plainKey key -> allBytes blankByte ws -> isSeparator sep = true ->
  Forall (fun r => isSpace r = true) sp ->
  hasByte prefixSingleQuote body = false ->
  (body = EmptyString \/ byte_at body (String.length body - 1) <> N_of_ascii BACKSLASH) ->
  parseLoop (S fuel)
      (utf8.encode rs +:+ key +:+ ws
         +:+ String sep (utf8.encode sp +:+ "'" +:+ body +:+ "'" +:+ rest)) out
    = parseLoop fuel rest (<[key := body]> out).
Proof.
  intros Hrs Hkey Hws Hsep Hsp Hno Hlast. rewrite parseLoop_statement by done.
  change ("'" +:+ body +:+ "'" +:+ rest)
    with (String prefixSingleQuote (body +:+ String prefixSingleQuote rest)).
  rewrite TrimLeftFunc_value by (done || by vm_compute).
  rewrite extractVarValue_quoted by (done || by right). done.
Qed.

Lemma parseLoop_single_quoted_witness :
  parseLoop 2 ("A = 'x $B \n' C=2") {[ "B" := "1" ]}
    = ({[ "A" := "x $B \n"; "B" := "1"; "C" := "2" ]}, None).
Proof.
  etransitivity.
  - apply (parseLoop_single_quoted 1 {[ "B" := "1" ]} [] "A" " " "=" [32%N] "x $B \n" " C=2").
    + constructor.
    + split; [intros E; discriminate E|]. split; [|intros E; discriminate E].
      intros c Hc. cbn in Hc. repeat (destruct Hc as [<-|Hc]; [reflexivity|]). destruct Hc.
    + intros c Hc. cbn in Hc. repeat (destruct Hc as [<-|Hc]; [reflexivity|]). destruct Hc.
    + reflexivity.
    + by repeat constructor.
    + reflexivity.
    + right. intros E. vm_compute in E. discriminate E.
  - vm_compute. reflexivity.
Defined.



(** ** Escaped references and the parenthesis *)











(** ** A load without files, and the program *)





(** [os.Setenv] with its error. *)
Definition os_Setenv (key value : string) : M (option error) := fun w =>
  match os.Setenv (environ w) key value with
  | Some e => (None, mkWorld e (opened w))
  | None => (Some (ErrIO "setenv: invalid argument"), w)
  end.

(** [main] of [cmd/dotenv]: the lines printed, or the error of the
    panic. *)
Definition main (fs : os.fileSystem) : M (result (list string)) :=
  err ← os_Setenv "AGE" "18";
  match err with
  | Some e => mret (Err e)
  | None =>
      err ← LoadEnv fs [".env"];
      match err with
      | Some e => mret (Err e)
      | None =>
          app ← os_Getenv "APP_ENV";
          name ← os_Getenv "NAME";
          age ← os_Getenv "AGE";
          mret (Ok ["APP_ENV: " +:+ app +:+ NL; "NAME: " +:+ name +:+ NL;
                    "AGE: " +:+ age +:+ NL])
      end
  end.

(** X13.  The program sets [AGE] before it loads the files, so no file
    changes it: either [LoadEnv] fails and the program panics with its
    error, or three lines are printed, the last of which is [AGE: 18],
    whatever the files define and whatever [AGE] was before. *)
Theorem main_prints_AGE fs w :
  let w1 := mkWorld (<["AGE" := "18"]> (environ w)) (opened w) in
  match fst (main fs w) with
  | Ok lines =>
      fst (LoadEnv fs [".env"] w1) = None
      /\ exists app name,
           lines = ["APP_ENV: " +:+ app +:+ NL; "NAME: " +:+ name +:+ NL;
                    "AGE: 18" +:+ NL]
  | Err e => fst (LoadEnv fs [".env"] w1) = Some e
  end.
Proof.
  intros w1. unfold main, mbind, M_bind, os_Setenv.
  change (os.Setenv (environ w) "AGE" "18") with (Some (<["AGE" := "18"]> (environ w))).
  subst w1. cbv beta iota.
  set (w1 := mkWorld (<["AGE" := "18"]> (environ w)) (opened w)).
  assert (environ (snd (LoadEnv fs [".env"] w1)) !! "AGE" = Some "18") as Hage.
  { unfold LoadEnv, mbind, M_bind, os_Environ.
    apply loadLoop_keeps; [|by apply filesFn_keeps|apply lookup_insert_eq].
    intros m e. eapply mergeInto_original. apply lookup_insert_eq. }
  destruct (LoadEnv fs [".env"] w1) as [[e|] w2];
    unfold os_Getenv, mret, M_ret; cbn [fst snd environ] in *; [done|].
  split; [done|].
  exists (os.Getenv (environ w2) "APP_ENV"), (os.Getenv (environ w2) "NAME").
  by rewrite (Getenv_lookup _ _ _ Hage).
Qed.

Lemma main_prints_AGE_witness :
  exists app name,
    fst (main (fun f => if String.eqb f ".env" then os.Contents "AGE=21" else os.NotExist)
              (mkWorld {[ "AGE" := "7" ]} []))
      = Ok ["APP_ENV: " +:+ app +:+ NL; "NAME: " +:+ name +:+ NL; "AGE: 18" +:+ NL].
Proof.
  pose proof (main_prints_AGE
                (fun f => if String.eqb f ".env" then os.Contents "AGE=21" else os.NotExist)
                (mkWorld {[ "AGE" := "7" ]} [])) as H.
  cbv zeta in H.
  destruct (fst (main _ _)) as [lines|e] eqn:E.
  - destruct H as (_ & app & name & ->). by exists app, name.
  - exfalso. vm_compute in E. discriminate E.
Defined.
